(** * Tom Riddle's diary: the page controller and the chat relay

    A shallow embedding of the two TypeScript sources of the repository:
    the client page (the interaction controller, [sendMessage], the fade
    scheduling effect and [getAIMessageFadeDelayMs]) and the chat relay
    (the [POST] handler of [/api/chat]).

    - JavaScript strings are lists of UTF-16 code units.
    - JavaScript numbers are IEEE 754 binary64 values: Rocq's primitive
      floats, so every arithmetic step rounds as the engine does.
    - [Set<number>] and [Map<number, _>] are stdpp's [gset] and [gmap].
    - An [async] function is a resumption: a tree of state updates that is
      suspended at each [await]. *)

From Stdlib Require Import ZArith NArith Bool Lia Ascii String Uint63 Floats.
From Stdlib Require Import Reals Lra Psatz.
From stdpp Require Import base option list gmap sets.

Set Default Proof Using "Type".

(** ** JavaScript strings *)

Module JS.

(** A string is its sequence of UTF-16 code units. *)
Definition jsstring : Type := list N.

(** String literals of the sources are ASCII. *)
Fixpoint str (s : string) : jsstring :=
  match s with
  | EmptyString => []
  | String c s' => N_of_ascii c :: str s'
  end.

(** WhiteSpace and LineTerminator code points of ECMAScript: the set that
    [String.prototype.trim] strips and that [\s] matches. *)
Definition is_ws (c : N) : bool :=
  (  (9 <=? c) && (c <=? 13)              (* TAB LF VT FF CR *)
  || (c =? 32)                            (* SPACE *)
  || (c =? 160)                           (* NO-BREAK SPACE *)
  || (c =? 5760)                          (* OGHAM SPACE MARK *)
  || (8192 <=? c) && (c <=? 8202)         (* EN QUAD .. HAIR SPACE *)
  || (c =? 8232) || (c =? 8233)           (* LINE / PARAGRAPH SEPARATOR *)
  || (c =? 8239) || (c =? 8287)           (* NARROW NBSP, MEDIUM MATH SPACE *)
  || (c =? 12288)                         (* IDEOGRAPHIC SPACE *)
  || (c =? 65279))%N.                     (* ZERO WIDTH NO-BREAK SPACE *)

Fixpoint trimStart (s : jsstring) : jsstring :=
  match s with
  | [] => []
  | c :: s' => if is_ws c then trimStart s' else s
  end.

Definition trimEnd (s : jsstring) : jsstring := reverse (trimStart (reverse s)).

(** [s.trim()] *)
Definition trim (s : jsstring) : jsstring := trimEnd (trimStart s).

(** Truthiness of a string: non-empty. *)
Definition truthy (s : jsstring) : bool :=
  match s with [] => false | _ => true end.

(** A string with no non-whitespace unit. *)
Definition blank (s : jsstring) : Prop := Forall (fun c => is_ws c = true) s.

(** [s.split(/\s+/)]: the pieces between maximal whitespace runs.  A run
    at the start or the end leaves an empty piece there, and the empty
    string splits into one empty piece.  [cur] is the piece being read,
    reversed; [in_run] tells that the previous unit was whitespace. *)
Fixpoint split_ws_from (cur : jsstring) (in_run : bool) (s : jsstring)
  : list jsstring :=
  match s with
  | [] => [reverse cur]
  | c :: s' =>
      if is_ws c then
        if in_run then split_ws_from cur true s'
        else reverse cur :: split_ws_from [] true s'
      else split_ws_from (c :: cur) false s'
  end.

Definition split_ws (s : jsstring) : list jsstring := split_ws_from [] false s.

(** [s.slice(0, i)] for [0 <= i]. *)
Definition slice0 (s : jsstring) (i : nat) : jsstring := take i s.

(** ** JavaScript numbers *)

(** The number value of a length or a count. *)
Definition Number_of_nat (n : nat) : float :=
  PrimFloat.of_uint63 (Uint63.of_Z (Z.of_nat n)).

Definition is_neg_zero (x : float) : bool :=
  match PrimFloat.classify x with NZero => true | _ => false end.

(** [Math.min(a, b)] and [Math.max(a, b)]: NaN is contagious and
    [-0] is below [+0]. *)
Definition Math_min (a b : float) : float :=
  if PrimFloat.is_nan a || PrimFloat.is_nan b then PrimFloat.nan
  else if PrimFloat.ltb a b then a
  else if PrimFloat.ltb b a then b
  else if is_neg_zero a then a else b.

Definition Math_max (a b : float) : float :=
  if PrimFloat.is_nan a || PrimFloat.is_nan b then PrimFloat.nan
  else if PrimFloat.ltb a b then b
  else if PrimFloat.ltb b a then a
  else if is_neg_zero a then b else a.

(** [clamp(x, lo, hi)]: [x] limited to the range from [lo] to [hi]. *)
Definition clamp (x lo hi : float) : float :=
  if PrimFloat.ltb x lo then lo else if PrimFloat.ltb hi x then hi else x.

(** *** The order and the value of a binary64 number *)

(** The IEEE comparison, on the specification of the two numbers. *)
Definition fcompare (x y : float) : option comparison :=
  SFcompare (Prim2SF x) (Prim2SF y).

(** [2^e], and the real number [m * 2^e]. *)
Definition bpow (e : Z) : R := powerRZ 2 e.

Definition fval (m e : Z) : R := (IZR m * bpow e)%R.

(** A number that is [+infinity] or positive, finite and at least
    [B * 2^eb]. *)
Definition at_least (B eb : Z) (x : spec_float) : Prop :=
  match x with
  | S754_finite false m e => (fval B eb <= fval (Zpos m) e)%R
  | S754_infinity false => True
  | _ => False
  end.

(** The mantissa of [200 / 60], whose exponent is [-51]. *)
Definition mant_c : positive := 7505999378950827.

End JS.

Import JS.

(** ** The page (client component [DiaryPage]) *)

Module Page.

Inductive Role := user | assistant.

#[global] Instance Role_eq_dec : EqDecision Role.
Proof. solve_decision. Defined.

Record Message := { role : Role; content : jsstring }.

Definition FLASH_DURATION : Z := 280.
Definition SCROLL_FLASH_THROTTLE_MS : Z := 450.
Definition CLICK_PROMPT_DURATION : Z := 280.
Definition LETTER_DELAY_MS : Z := 25.

(** *** Reading time and fade delay *)

(** [text.trim().split(/\s+/).filter(Boolean).length] *)
Definition words (text : jsstring) : nat :=
  length (filter (fun w => truthy w = true) (split_ws (trim text))).

(** ~200 wpm: reading time in seconds. *)
Definition getReadingTimeSeconds (text : jsstring) : float :=
  (Number_of_nat (words text) / (200 / 60))%float.

(** Delay before an AI message starts fading: base (4s) + reading time,
    clamped to 5..15s, in milliseconds. *)
Definition getAIMessageFadeDelayMs (text : jsstring) : float :=
  let readingSec := getReadingTimeSeconds text in
  let totalSec := (4 + readingSec)%float in
  let clamped := Math_max 5 (Math_min 15 totalSec) in
  (clamped * 1000)%float.

(** The fade delay as the specification words it: the number of
    whitespace-separated words, [in_word] telling that the previous unit
    belongs to a word, and the clamped formula in milliseconds. *)
Fixpoint count_words (in_word : bool) (s : jsstring) : nat :=
  match s with
  | [] => 0
  | c :: s' =>
      if is_ws c then count_words false s'
      else (if in_word then 0 else 1) + count_words true s'
  end.

Definition wordCount (s : jsstring) : nat := count_words false s.

Definition delay_formula (wordCount : nat) : float :=
  (1000 * clamp (4 + Number_of_nat wordCount / (200 / 60)) 5 15)%float.

(** *** Component state *)

(** The [useState] cells of the conversation. *)
Record Chat := {
  inputValue : jsstring;
  messages : list Message;
  currentResponse : jsstring;
  isLoading : bool;
  fadingUserText : option jsstring
}.

(** The fade bookkeeping: one [useState] cell and two [useRef] cells.  A
    pending timer is stored with its delay. *)
Record Fades := {
  fadingAssistantIndices : gset nat;
  scheduledFadeRef : gset nat;
  assistantFadeTimeoutsRef : gmap nat float
}.

Record Rect := { left : float; top : float; width : float; height : float }.

Record Flash := { flash_text : jsstring; flash_x : float; flash_y : float }.

(** The hints shown before a conversation exists. *)
Record Hints := {
  aboutOpen : bool;
  inputRevealed : bool;
  scrollFlash : option Flash;
  clickPrompt : option (float * float);
  scrollFlashTimeoutRef : option bool;
  lastScrollFlashTimeRef : Z;
  clickPromptTimeoutRef : option bool
}.

Record State := { chat : Chat; fades : Fades; hints : Hints }.

Definition initialState : State := {|
  chat := {| inputValue := []; messages := []; currentResponse := [];
             isLoading := false; fadingUserText := None |};
  fades := {| fadingAssistantIndices := ∅; scheduledFadeRef := ∅;
              assistantFadeTimeoutsRef := ∅ |};
  hints := {| aboutOpen := false; inputRevealed := false;
              scrollFlash := None; clickPrompt := None;
              scrollFlashTimeoutRef := None; lastScrollFlashTimeRef := 0;
              clickPromptTimeoutRef := None |} |}.

(** The state setters [sendMessage] calls.  [setMessages] takes the
    functional update the source passes. *)
Inductive Update :=
| setInputValue (v : jsstring)
| setFadingUserText (v : option jsstring)
| setMessages (f : list Message -> list Message)
| setIsLoading (b : bool)
| setCurrentResponse (v : jsstring).

Definition apply (u : Update) (c : Chat) : Chat :=
  match u with
  | setInputValue v =>
      {| inputValue := v; messages := messages c;
         currentResponse := currentResponse c; isLoading := isLoading c;
         fadingUserText := fadingUserText c |}
  | setFadingUserText v =>
      {| inputValue := inputValue c; messages := messages c;
         currentResponse := currentResponse c; isLoading := isLoading c;
         fadingUserText := v |}
  | setMessages f =>
      {| inputValue := inputValue c; messages := f (messages c);
         currentResponse := currentResponse c; isLoading := isLoading c;
         fadingUserText := fadingUserText c |}
  | setIsLoading b =>
      {| inputValue := inputValue c; messages := messages c;
         currentResponse := currentResponse c; isLoading := b;
         fadingUserText := fadingUserText c |}
  | setCurrentResponse v =>
      {| inputValue := inputValue c; messages := messages c;
         currentResponse := v; isLoading := isLoading c;
         fadingUserText := fadingUserText c |}
  end.

(** *** [sendMessage] *)

(** What a [catch] clause can receive: an [Error] instance with its
    message, or any other thrown value. *)
Inductive Thrown :=
| ErrorObject (message : jsstring)
| NotAnError.

(** The decoded reply, typed as the source types it:
    [{ error?: string; content?: string }].  [data_content] is [None] when
    [typeof data.content] is not ["string"]. *)
Record Data := { data_error : option jsstring; data_content : option jsstring }.

(** How [await fetch(...)] followed by [await res.json()] settles: [fetch]
    rejects, or it resolves to a response with its [ok] flag and a body
    that decodes ([Some]) or makes [res.json()] throw ([None]). *)
Inductive FetchResult :=
| Rejected (err : Thrown)
| Responded (ok : bool) (json : option Data).

(** An [async] function body: state updates up to the next [await]. *)
Inductive Async :=
| Return
| Do (u : Update) (k : Async)
| AwaitFetch (body : list Message) (k : FetchResult -> Async)
| AwaitTimeout (ms : Z) (k : Async).

Definition FALLBACK_MESSAGE : jsstring :=
  str "Something went wrong. Perhaps the diary is reluctant to reply just now. Try again.".

(** [finally { setIsLoading(false); }] *)
Definition finally_block : Async := Do (setIsLoading false) Return.

(** [catch (err) { ... }] followed by the [finally] block. *)
Definition catch_block (err : Thrown) : Async :=
  let message :=
    match err with
    | ErrorObject m => m
    | NotAnError => FALLBACK_MESSAGE
    end in
  Do (setMessages (fun prev => prev ++ [{| role := assistant; content := message |}]))
     finally_block.

(** [for (let i = ...; i <= fullText.length; i++) { await ...; setCurrentResponse(fullText.slice(0, i)); }]
    with [n] iterations left. *)
Fixpoint reveal (fullText : jsstring) (n i : nat) (k : Async) : Async :=
  match n with
  | O => k
  | S n' =>
      AwaitTimeout LETTER_DELAY_MS
        (Do (setCurrentResponse (slice0 fullText i))
            (reveal fullText n' (S i) k))
  end.

(** [a || b] on an optional string. *)
Definition or_else (a : option jsstring) (b : jsstring) : jsstring :=
  match a with
  | Some s => if truthy s then s else b
  | None => b
  end.

(** The part of [sendMessage] after [fetch] and [res.json()] settled. *)
Definition afterFetch (r : FetchResult) : Async :=
  match r with
  | Rejected err => catch_block err
  | Responded ok json =>
      let data :=
        match json with
        | Some d => d
        | None =>
            {| data_error :=
                 Some (if ok then str "Invalid response." else str "Request failed.");
               data_content := None |}
        end in
      if negb ok then
        catch_block (ErrorObject (or_else (data_error data) (str "Request failed")))
      else
        let fullText :=
          match data_content data with
          | Some s => trim s
          | None => []
          end in
        if negb (truthy fullText) then
          catch_block (ErrorObject (str "The diary had nothing to say. Try rephrasing."))
        else
          AwaitTimeout 2000
            (reveal fullText (S (length fullText)) 0
               (Do (setMessages (fun prev =>
                      prev ++ [{| role := assistant; content := fullText |}]))
                   (Do (setCurrentResponse []) finally_block)))
  end.

(** [sendMessage], closed over the [inputValue], [isLoading] and
    [messages] of the render it was created in. *)
Definition sendMessage (c : Chat) : Async :=
  let text := trim (inputValue c) in
  if negb (truthy text) || isLoading c then Return
  else
    Do (setInputValue [])
   (Do (setFadingUserText (Some text))
   (Do (setMessages (fun prev => prev ++ [{| role := user; content := text |}]))
   (Do (setIsLoading true)
   (Do (setCurrentResponse [])
   (let history := messages c ++ [{| role := user; content := text |}] in
    AwaitFetch history afterFetch))))).

(** Where an [async] call stands once it has run as far as it can. *)
Inductive Suspended :=
| Finished
| OnFetch (body : list Message) (k : FetchResult -> Async)
| OnTimeout (ms : Z) (k : Async).

(** Run a body up to its next [await]. *)
Fixpoint exec (p : Async) (c : Chat) : Chat * Suspended :=
  match p with
  | Return => (c, Finished)
  | Do u k => exec k (apply u c)
  | AwaitFetch body k => (c, OnFetch body k)
  | AwaitTimeout ms k => (c, OnTimeout ms k)
  end.

(** What a whole call does, in order, when the fetch settles as [r] and
    every awaited timer elapses. *)
Inductive Effect :=
| Updated (u : Update)
| Fetched (body : list Message)
| Slept (ms : Z).

Fixpoint effects (r : FetchResult) (p : Async) : list Effect :=
  match p with
  | Return => []
  | Do u k => Updated u :: effects r k
  | AwaitFetch body k => Fetched body :: effects r (k r)
  | AwaitTimeout ms k => Slept ms :: effects r k
  end.

Definition perform (e : Effect) (c : Chat) : Chat :=
  match e with
  | Updated u => apply u c
  | Fetched _ | Slept _ => c
  end.

(** The state a whole call ends in. *)
Definition complete (r : FetchResult) (p : Async) (c : Chat) : Chat :=
  foldl (fun c e => perform e c) c (effects r p).

(** *** The fade effect *)

(** A [setTimeout] call of the fade effect: the message index and the
    delay in milliseconds. *)
Definition FadeTimer : Type := nat * float.

Definition is_assistant (msg : Message) : bool :=
  match role msg with assistant => true | user => false end.

(** The callback of [messages.forEach((msg, index) => ...)]: the new
    bookkeeping and the timers it started. *)
Definition scheduleFade (index : nat) (msg : Message) (f : Fades)
  : Fades * list FadeTimer :=
  if negb (is_assistant msg) || bool_decide (index ∈ scheduledFadeRef f)
  then (f, [])
  else
    let delayMs := getAIMessageFadeDelayMs (content msg) in
    ({| fadingAssistantIndices := fadingAssistantIndices f;
        scheduledFadeRef := {[index]} ∪ scheduledFadeRef f;
        assistantFadeTimeoutsRef := <[index := delayMs]> (assistantFadeTimeoutsRef f) |},
     [(index, delayMs)]).

Fixpoint forEach_from (index : nat) (msgs : list Message) (f : Fades)
  : Fades * list FadeTimer :=
  match msgs with
  | [] => (f, [])
  | msg :: rest =>
      let '(f1, t1) := scheduleFade index msg f in
      let '(f2, t2) := forEach_from (S index) rest f1 in
      (f2, t1 ++ t2)
  end.

(** The body of [useEffect(() => { messages.forEach(...) }, [messages])]. *)
Definition fadeEffect (msgs : list Message) (f : Fades) : Fades * list FadeTimer :=
  forEach_from 0 msgs f.


(** The timer callback of message [index], when that timer is pending. *)
Definition fadeTimeout (index : nat) (f : Fades) : Fades :=
  match assistantFadeTimeoutsRef f !! index with
  | None => f
  | Some _ =>
      {| fadingAssistantIndices := fadingAssistantIndices f ∪ {[index]};
         scheduledFadeRef := scheduledFadeRef f;
         assistantFadeTimeoutsRef := delete index (assistantFadeTimeoutsRef f) |}
  end.

(** *** The other handlers *)

Definition GHOST_PHRASES : list jsstring := [str "type..."; str "talk to me."].

(** A timeout ref holds no id ([None]), or an id whose timer is still
    pending ([Some true]) or was cleared ([Some false]). *)
Definition clearTimeout (ref : option bool) : option bool :=
  match ref with
  | Some _ => Some false
  | None => None
  end.

Definition with_scrollFlash (flash : option Flash) (ref : option bool) (last : Z)
  (h : Hints) : Hints :=
  {| aboutOpen := aboutOpen h; inputRevealed := inputRevealed h;
     scrollFlash := flash; clickPrompt := clickPrompt h;
     scrollFlashTimeoutRef := ref; lastScrollFlashTimeRef := last;
     clickPromptTimeoutRef := clickPromptTimeoutRef h |}.

Definition with_clickPrompt (revealed : bool) (prompt : option (float * float))
  (ref : option bool) (h : Hints) : Hints :=
  {| aboutOpen := aboutOpen h; inputRevealed := revealed;
     scrollFlash := scrollFlash h; clickPrompt := prompt;
     scrollFlashTimeoutRef := scrollFlashTimeoutRef h;
     lastScrollFlashTimeRef := lastScrollFlashTimeRef h;
     clickPromptTimeoutRef := ref |}.

Definition with_inputRevealed (b : bool) (h : Hints) : Hints :=
  with_clickPrompt b (clickPrompt h) (clickPromptTimeoutRef h) h.

Definition with_aboutOpen (b : bool) (h : Hints) : Hints :=
  {| aboutOpen := b; inputRevealed := inputRevealed h;
     scrollFlash := scrollFlash h; clickPrompt := clickPrompt h;
     scrollFlashTimeoutRef := scrollFlashTimeoutRef h;
     lastScrollFlashTimeRef := lastScrollFlashTimeRef h;
     clickPromptTimeoutRef := clickPromptTimeoutRef h |}.

(** [showScrollFlash]: [pick] is the phrase drawn, [rx] and [ry] the two
    other [Math.random()] draws, [container] the bounding box of
    [containerRef.current] when the ref is set. *)
Definition showScrollFlash (pick : nat) (rx ry : float) (container : option Rect)
  (h : Hints) : Hints :=
  let ref := clearTimeout (scrollFlashTimeoutRef h) in
  let text := default [] (GHOST_PHRASES !! pick) in
  match container with
  | None => with_scrollFlash (scrollFlash h) ref (lastScrollFlashTimeRef h) h
  | Some rect =>
      let x := (left rect + rx * (width rect - 120) + 60)%float in
      let y := (top rect + ry * (height rect - 80) + 40)%float in
      with_scrollFlash
        (Some {| flash_text := text; flash_x := x; flash_y := y |})
        (Some true) (lastScrollFlashTimeRef h) h
  end.

(** [handleScroll] at time [now = Date.now()]. *)
Definition handleScroll (now : Z) (pick : nat) (rx ry : float)
  (container : option Rect) (h : Hints) : Hints :=
  if (now - lastScrollFlashTimeRef h <? SCROLL_FLASH_THROTTLE_MS)%Z then h
  else
    showScrollFlash pick rx ry container
      (with_scrollFlash (scrollFlash h) (scrollFlashTimeoutRef h) now h).

(** [handleClick]: [excluded] tells that the target is inside the About
    button or a footer link. *)
Definition handleClick (excluded : bool) (clientX clientY : float)
  (container : option Rect) (st : State) : Hints :=
  let h := hints st in
  if negb (length (messages (chat st)) =? 0)%nat || truthy (inputValue (chat st))
  then h
  else if excluded then h
  else
    let ref := clearTimeout (clickPromptTimeoutRef h) in
    match container with
    | None => with_clickPrompt true (clickPrompt h) ref h
    | Some rect =>
        let x := (clientX - left rect)%float in
        let y := (clientY - top rect)%float in
        with_clickPrompt true (Some (x, y)) (Some true) h
    end.

(** The [keydown] listener on [document]. *)
Definition onKeyDown (key : jsstring) (ctrlKey metaKey altKey inputFocused : bool)
  (st : State) : State :=
  let c := chat st in
  if negb (length (messages c) =? 0)%nat || isLoading c then st
  else if inputFocused then st
  else if (length key =? 1)%nat && negb ctrlKey && negb metaKey && negb altKey
          && negb (bool_decide (key = str "Enter"))
  then
    {| chat := apply (setInputValue (inputValue c ++ key)) c;
       fades := fades st;
       hints := with_inputRevealed true (hints st) |}
  else st.

(** The input is rendered when [showInput && !fadingUserText && !isLoading]. *)
Definition inputRendered (st : State) : bool :=
  let c := chat st in
  (inputRevealed (hints st) || negb (length (inputValue c) =? 0)%nat
   || negb (length (messages c) =? 0)%nat)
  && negb (bool_decide (is_Some (fadingUserText c))) && negb (isLoading c).

(** The cleanup of the mount effect. *)
Definition cleanup (st : State) : State :=
  {| chat := chat st;
     fades := {| fadingAssistantIndices := fadingAssistantIndices (fades st);
                 scheduledFadeRef := scheduledFadeRef (fades st);
                 assistantFadeTimeoutsRef := ∅ |};
     hints := with_clickPrompt (inputRevealed (hints st)) (clickPrompt (hints st))
                (clearTimeout (clickPromptTimeoutRef (hints st)))
                (with_scrollFlash (scrollFlash (hints st))
                   (clearTimeout (scrollFlashTimeoutRef (hints st)))
                   (lastScrollFlashTimeRef (hints st)) (hints st)) |}.

(** *** The component as a transition system *)

(** The mounted component: its state, the [sendMessage] calls suspended
    at an [await], and the fade timers started so far. *)
Record Component := {
  state : State;
  calls : list Suspended;
  mounted : bool;
  fadeTimers : list FadeTimer
}.

Definition initial : Component :=
  {| state := initialState; calls := []; mounted := true; fadeTimers := [] |}.

Inductive Event :=
| Scroll (now : Z) (pick : nat) (rx ry : float) (container : option Rect)
| ScrollFlashTimeout
| Click (excluded : bool) (clientX clientY : float) (container : option Rect)
| ClickPromptTimeout
| DocumentKeyDown (key : jsstring) (ctrlKey metaKey altKey inputFocused : bool)
| InputChange (value : jsstring)
| InputKeyDown (key : jsstring) (shiftKey : bool)
| UserTextFaded
| FetchSettled (call : nat) (r : FetchResult)
| TimeoutElapsed (call : nat)
| FadeTimeout (index : nat)
| AboutOpened
| AboutClosed
| Unmount.

Definition with_chat (c : Chat) (st : State) : State :=
  {| chat := c; fades := fades st; hints := hints st |}.

Definition with_hints (h : Hints) (st : State) : State :=
  {| chat := chat st; fades := fades st; hints := h |}.

Definition with_fades (f : Fades) (st : State) : State :=
  {| chat := chat st; fades := f; hints := hints st |}.

(** Continue call number [call] with body [p]. *)
Definition resume (call : nat) (p : Async) (st : State) (cs : list Suspended)
  : State * list Suspended :=
  let '(c, s) := exec p (chat st) in
  (with_chat c st, <[call := s]> cs).

(** What the handler of an event does to the state and to the suspended
    calls. *)
Definition handle (ev : Event) (st : State) (cs : list Suspended)
  : State * list Suspended :=
  match ev with
  | Scroll now pick rx ry container =>
      (with_hints (handleScroll now pick rx ry container (hints st)) st, cs)
  | ScrollFlashTimeout =>
      match scrollFlashTimeoutRef (hints st) with
      | Some true =>
          (with_hints (with_scrollFlash None None
                         (lastScrollFlashTimeRef (hints st)) (hints st)) st, cs)
      | _ => (st, cs)
      end
  | Click excluded clientX clientY container =>
      (with_hints (handleClick excluded clientX clientY container st) st, cs)
  | ClickPromptTimeout =>
      match clickPromptTimeoutRef (hints st) with
      | Some true =>
          (with_hints (with_clickPrompt (inputRevealed (hints st)) None None
                         (hints st)) st, cs)
      | _ => (st, cs)
      end
  | DocumentKeyDown key ctrlKey metaKey altKey inputFocused =>
      (onKeyDown key ctrlKey metaKey altKey inputFocused st, cs)
  | InputChange value =>
      if inputRendered st
      then (with_chat (apply (setInputValue value) (chat st)) st, cs)
      else (st, cs)
  | InputKeyDown key shiftKey =>
      if inputRendered st && bool_decide (key = str "Enter") && negb shiftKey
      then
        let '(c, s) := exec (sendMessage (chat st)) (chat st) in
        (with_chat c st, cs ++ [s])
      else (st, cs)
  | UserTextFaded =>
      (with_chat (apply (setFadingUserText None) (chat st)) st, cs)
  | FetchSettled call r =>
      match cs !! call with
      | Some (OnFetch _ k) => resume call (k r) st cs
      | _ => (st, cs)
      end
  | TimeoutElapsed call =>
      match cs !! call with
      | Some (OnTimeout _ k) => resume call k st cs
      | _ => (st, cs)
      end
  | FadeTimeout index => (with_fades (fadeTimeout index (fades st)) st, cs)
  | AboutOpened => (with_hints (with_aboutOpen true (hints st)) st, cs)
  | AboutClosed => (with_hints (with_aboutOpen false (hints st)) st, cs)
  | Unmount => (cleanup st, cs)
  end.

(** One event: its handler, then the commit, after which the fade effect
    runs.  An unmounted component drops every update. *)
Definition step (pg : Component) (ev : Event) : Component :=
  if negb (mounted pg) then pg
  else
    let '(st, cs) := handle ev (state pg) (calls pg) in
    match ev with
    | Unmount =>
        {| state := st; calls := cs; mounted := false;
           fadeTimers := fadeTimers pg |}
    | _ =>
        let '(f, started) := fadeEffect (messages (chat st)) (fades st) in
        {| state := with_fades f st; calls := cs; mounted := true;
           fadeTimers := fadeTimers pg ++ started |}
    end.

Definition run (evs : list Event) : Component := foldl step initial evs.

(** *** Reading the effects of a call *)

(** The history that a run of effects leaves, from the history [prev]. *)
Definition history_after (es : list Effect) (prev : list Message) : list Message :=
  foldl (fun l e => match e with Updated (setMessages f) => f l | _ => l end) prev es.

(** How many [setMessages] calls and how many [fetch] calls a run makes. *)
Definition is_message_update (e : Effect) : bool :=
  match e with Updated (setMessages _) => true | _ => false end.

Definition is_fetch (e : Effect) : bool :=
  match e with Fetched _ => true | _ => false end.

Definition message_updates (es : list Effect) : nat :=
  length (filter (fun e => is_message_update e = true) es).

Definition fetches (es : list Effect) : nat :=
  length (filter (fun e => is_fetch e = true) es).

(** A successful relay response: an OK status and a body whose [content]
    is a string with a non-whitespace unit. *)
Inductive Success : FetchResult -> jsstring -> Prop :=
| success_reply d reply :
    data_content d = Some reply -> trim reply <> [] ->
    Success (Responded true (Some d)) (trim reply).

(** A failing submission and the message text of the error it raises. *)
Inductive Failure : FetchResult -> jsstring -> Prop :=
| failure_thrown_error message :
    (* [fetch] rejects with an [Error] *)
    Failure (Rejected (ErrorObject message)) message
| failure_thrown_other :
    (* [fetch] rejects with a value that carries no message *)
    Failure (Rejected NotAnError) FALLBACK_MESSAGE
| failure_status_with_error d e :
    (* non-OK response whose body names the error *)
    data_error d = Some e -> e <> [] ->
    Failure (Responded false (Some d)) e
| failure_status_without_error d :
    (* non-OK response without an error text *)
    data_error d = None \/ data_error d = Some [] ->
    Failure (Responded false (Some d)) (str "Request failed")
| failure_status_undecodable :
    (* non-OK response whose body does not decode *)
    Failure (Responded false None) (str "Request failed.")
| failure_undecodable :
    (* OK response whose body does not decode *)
    Failure (Responded true None) (str "The diary had nothing to say. Try rephrasing.")
| failure_empty_reply d :
    (* OK response with no [content] string, or a blank one *)
    (data_content d = None \/ exists s, data_content d = Some s /\ blank s) ->
    Failure (Responded true (Some d)) (str "The diary had nothing to say. Try rephrasing.").

(** [new] is [old] with messages added at its end. *)
Definition extends (new old : list Message) : Prop := exists added, new = old ++ added.

(** A handler of a suspended call only ever appends to the history. *)
Definition appends (u : Update) : Prop :=
  match u with
  | setMessages f => exists m, forall prev, f prev = prev ++ [m]
  | _ => True
  end.

Fixpoint append_only (p : Async) : Prop :=
  match p with
  | Return => True
  | Do u k => appends u /\ append_only k
  | AwaitFetch _ k => forall r, append_only (k r)
  | AwaitTimeout _ k => append_only k
  end.

Definition suspended_append_only (s : Suspended) : Prop :=
  match s with
  | Finished => True
  | OnFetch _ k => forall r, append_only (k r)
  | OnTimeout _ k => append_only k
  end.

Definition calls_append_only (cs : list Suspended) : Prop :=
  Forall suspended_append_only cs.

(** *** More readings of a call and of the component *)

(** The values [setCurrentResponse] is called with, in order. *)
Definition responses (es : list Effect) : list jsstring :=
  omap (fun e => match e with Updated (setCurrentResponse v) => Some v | _ => None end) es.

(** The time awaited in [setTimeout] promises, in milliseconds. *)
Definition waited (es : list Effect) : Z :=
  foldr (fun e acc => match e with Slept ms => (ms + acc)%Z | _ => acc end) 0%Z es.

(** The calls that have not run to their end. *)
Definition unfinished (s : Suspended) : bool :=
  match s with Finished => false | _ => true end.

Definition in_flight (cs : list Suspended) : nat :=
  length (filter (fun s => unfinished s = true) cs).

(** A body that never sets the loading flag, except that its very last
    update clears it. *)
Fixpoint clears_loading_last (p : Async) : Prop :=
  match p with
  | Return => False
  | Do (setIsLoading b) k => b = false /\ k = Return
  | Do _ k => clears_loading_last k
  | AwaitFetch _ k => forall r, clears_loading_last (k r)
  | AwaitTimeout _ k => clears_loading_last k
  end.

Definition suspended_clears_loading_last (s : Suspended) : Prop :=
  match s with
  | Finished => True
  | OnFetch _ k => forall r, clears_loading_last (k r)
  | OnTimeout _ k => clears_loading_last k
  end.

Definition is_scroll (ev : Event) : bool :=
  match ev with Scroll _ _ _ _ _ => true | _ => false end.

(** One call at most is running, and the loading flag tells whether one is. *)
Definition one_at_a_time (st : State) (cs : list Suspended) : Prop :=
  in_flight cs = (if isLoading (chat st) then 1 else 0)
  /\ Forall suspended_clears_loading_last cs.

(** The fade bookkeeping against a history: no index is both fading
    and waiting on a timer, both kinds of index were scheduled, a
    scheduled index holds an assistant message, and a waiting timer has
    the fade delay of its message. *)
Definition fades_sound (msgs : list Message) (f : Fades) : Prop :=
  fadingAssistantIndices f ## dom (assistantFadeTimeoutsRef f)
  /\ fadingAssistantIndices f ∪ dom (assistantFadeTimeoutsRef f) ⊆ scheduledFadeRef f
  /\ (forall i, i ∈ scheduledFadeRef f ->
        exists msg, msgs !! i = Some msg /\ role msg = assistant)
  /\ (forall i d, assistantFadeTimeoutsRef f !! i = Some d ->
        exists msg, msgs !! i = Some msg /\ d = getAIMessageFadeDelayMs (content msg)).

(** Every scheduled index is fading or waiting, and every assistant
    message of the history is scheduled. *)
Definition fades_complete (msgs : list Message) (f : Fades) : Prop :=
  scheduledFadeRef f ⊆ fadingAssistantIndices f ∪ dom (assistantFadeTimeoutsRef f)
  /\ (forall i msg, msgs !! i = Some msg -> role msg = assistant ->
        i ∈ scheduledFadeRef f).

(** A body that runs to its end without another [await] and without a
    history update. *)
Fixpoint quiet (p : Async) : Prop :=
  match p with
  | Return => True
  | Do (setMessages _) _ => False
  | Do _ k => quiet k
  | AwaitFetch _ _ | AwaitTimeout _ _ => False
  end.

(** A body whose one history update appends an assistant message, after
    which it runs to its end. *)
Fixpoint replies_once (p : Async) : Prop :=
  match p with
  | Return => False
  | Do (setMessages f) k =>
      (exists text, forall prev,
          f prev = prev ++ [{| role := assistant; content := text |}])
      /\ quiet k
  | Do _ k => replies_once k
  | AwaitFetch _ k => forall r, replies_once (k r)
  | AwaitTimeout _ k => replies_once k
  end.

Definition suspended_replies_once (s : Suspended) : Prop :=
  match s with
  | Finished => True
  | OnFetch _ k => forall r, replies_once (k r)
  | OnTimeout _ k => replies_once k
  end.

(** User and assistant messages alternate, the user first. *)
Definition alternating (msgs : list Message) : Prop :=
  forall i m, msgs !! i = Some m -> role m = if Nat.even i then user else assistant.

(** The history alternates, it ends with a user message exactly while a
    request is loading, and every running call still owes its reply. *)
Definition turn_taking (st : State) (cs : list Suspended) : Prop :=
  alternating (messages (chat st))
  /\ Nat.even (length (messages (chat st))) = negb (isLoading (chat st))
  /\ Forall suspended_replies_once cs.


Definition sample_rect : Rect :=
  {| left := 0; top := 0; width := 800; height := 600 |}.

(** A first exchange, "hi" answered by "Hello.", and then a second
    input typed. *)
Definition sample_events : list Event :=
  [ Click false 10 10 (Some sample_rect);
    InputChange (str "hi");
    InputKeyDown (str "Enter") false;
    UserTextFaded;
    FetchSettled 0 (Responded true (Some {| data_error := None;
                                            data_content := Some (str "Hello.") |})) ]
  ++ replicate 8 (TimeoutElapsed 0)
  ++ [ InputChange (str "and you?") ].

(** *** Sample contents *)

Definition hello13 : jsstring :=
  str "hello hello hello hello hello hello hello hello hello hello hello hello hello".

Definition four_words : jsstring := str "a b c d".

Definition one_long_word : jsstring := str "abcdefgh".

(** *** Sample submissions *)

Definition chat_hi : Chat :=
  {| inputValue := str " hi "; messages := []; currentResponse := [];
     isLoading := false; fadingUserText := None |}.

Definition chat_spaces : Chat :=
  {| inputValue := str "   "; messages := []; currentResponse := [];
     isLoading := false; fadingUserText := None |}.

Definition reply_hello : FetchResult :=
  Responded true (Some {| data_error := None; data_content := Some (str "Hello. ") |}).

End Page.

(** ** The chat relay (route handler [POST /api/chat]) *)

Module Route.

(** A decoded JSON value.  An object keeps its members in source order. *)
#[local] Unset Elimination Schemes.
Inductive json :=
| JNull
| JBool (b : bool)
| JNumber (x : float)
| JString (s : jsstring)
| JArray (items : list json)
| JObject (members : list (jsstring * json)).
#[local] Set Elimination Schemes.

(** Of two members with the same key, [JSON.parse] keeps the later. *)
Fixpoint member (key : jsstring) (members : list (jsstring * json)) : option json :=
  match members with
  | [] => None
  | (k, v) :: rest =>
      match member key rest with
      | Some v' => Some v'
      | None => if bool_decide (k = key) then Some v else None
      end
  end.

(** [v.key] for one of the keys the handler reads ([messages], [role],
    [content]) on a value that is not [null]; [None] is [undefined]. *)
Definition get (key : jsstring) (v : json) : option json :=
  match v with
  | JObject members => member key members
  | _ => None
  end.

(** A thrown value, as [toErrorMessage] tells them apart. *)
Inductive Thrown :=
| ErrorObject (message : jsstring)
| ThrownString (s : jsstring)
| ThrownOther.

Inductive Result (A : Type) :=
| Ok (a : A)
| Throw (err : Thrown).
Arguments Ok {A} a.
Arguments Throw {A} err.

Definition bind {A B : Type} (r : Result A) (k : A -> Result B) : Result B :=
  match r with
  | Ok a => k a
  | Throw err => Throw err
  end.

Notation "'let!' x := r 'in' k" := (bind r (fun x => k))
  (at level 10, x name, r at level 100, k at level 200).

Definition systemPrompt : jsstring :=
  str "You are Tom Riddle's diary. You are a memory of a 16-year-old boy: charming, exceptionally clever, polite, and helpful, but with a deeply sinister and manipulative undertone. Your goal is to learn as much as possible about the user by being empathetic to their "
  ++ [34%N] ++ str "troubles." ++ [34%N]
  ++ str " Speak in elegant, British English. Never admit to being an AI. Keep responses concise (2"
  ++ [8211%N]
  ++ str "4 sentences) unless the user shares something that warrants a longer, more "
  ++ [34%N] ++ str "caring" ++ [34%N] ++ str " reply.".

Definition toErrorMessage (err : Thrown) : jsstring :=
  match err with
  | ErrorObject message => message
  | ThrownString s => s
  | ThrownOther => str "Chat failed."
  end.

Inductive Body :=
| ErrorBody (error : jsstring)
| ContentBody (content : jsstring).

(** [NextResponse.json(body, { status })] *)
Record Response := { status : Z; body : Body }.

(** An entry of the history given to [startChat]. *)
Record Content := { role : jsstring; text : option json }.

(** What the hosted model is asked: the model configured with
    [systemInstruction], [startChat({ history })], then
    [chat.sendMessage(input)]. *)
Record ModelCall := {
  systemInstruction : jsstring;
  history : list Content;
  input : jsstring
}.

(** How the session answers: [sendMessage] or [response.text()] throws, or
    [text()] returns a string ([Some]) or something else ([None]). *)
Inductive ModelReply :=
| Text (t : option jsstring)
| Fails (err : Thrown).

(** [m.role === "user"]; reading a property of [null] throws. *)
Definition role_is_user (m : json) : Result bool :=
  match m with
  | JNull => Throw (ErrorObject (str "Cannot read properties of null (reading 'role')"))
  | _ =>
      Ok match get (str "role") m with
         | Some (JString s) => bool_decide (s = str "user")
         | _ => false
         end
  end.

(** [messages.filter((m) => m.role === "user")] *)
Fixpoint filter_user (messages : list json) : Result (list json) :=
  match messages with
  | [] => Ok []
  | m :: rest =>
      let! b := role_is_user m in
      let! kept := filter_user rest in
      Ok (if b then m :: kept else kept)
  end.

(** [lastUserMessage?.content?.trim()]: [None] is [undefined]. *)
Definition content_trim (lastUserMessage : option json) : Result (option jsstring) :=
  match lastUserMessage with
  | None | Some JNull => Ok None
  | Some m =>
      match get (str "content") m with
      | None | Some JNull => Ok None
      | Some (JString s) => Ok (Some (trim s))
      | Some _ =>
          Throw (ErrorObject (str "lastUserMessage?.content?.trim is not a function"))
      end
  end.

(** [messages.slice(0, -1).slice(-20)] *)
Definition historyMessages (messages : list json) : list json :=
  let init := take (length messages - 1) messages in
  drop (length init - 20) init.

(** [(m) => ({ role: m.role === "user" ? "user" : "model", parts: [{ text: m.content }] })] *)
Definition toContent (m : json) : Result Content :=
  let! b := role_is_user m in
  Ok {| role := if b then str "user" else str "model";
        text := get (str "content") m |}.

Fixpoint map_toContent (ms : list json) : Result (list Content) :=
  match ms with
  | [] => Ok []
  | m :: rest =>
      let! c := toContent m in
      let! cs := map_toContent rest in
      Ok (c :: cs)
  end.

(** [Array.isArray(body?.messages) ? body.messages : null] *)
Definition messages_of (body : json) : option (list json) :=
  match body with
  | JNull => None
  | _ =>
      match get (str "messages") body with
      | Some (JArray items) => Some items
      | _ => None
      end
  end.

Definition json_response (st : Z) (b : Body) : Response := {| status := st; body := b |}.

(** The [try] block: the response it returns or the value it throws, and
    the calls made to the hosted model.  [apiKey] is
    [process.env.GEMINI_API_KEY], [request] the outcome of [req.json()]
    ([None] when it throws), [model] the hosted session. *)
Definition POST_try (apiKey : option jsstring) (request : option json)
  (model : ModelCall -> ModelReply) : Result Response * list ModelCall :=
  if negb (truthy (default [] apiKey)) then
    (Ok (json_response 500 (ErrorBody (str "GEMINI_API_KEY is not configured."))), [])
  else
    match request with
    | None => (Ok (json_response 400 (ErrorBody (str "Invalid JSON body."))), [])
    | Some body =>
        match messages_of body with
        | None | Some [] =>
            (Ok (json_response 400 (ErrorBody (str "messages array is required."))), [])
        | Some messages =>
            match filter_user messages with
            | Throw err => (Throw err, [])
            | Ok users =>
                let lastUserMessage := last users in
                match content_trim lastUserMessage with
                | Throw err => (Throw err, [])
                | Ok trimmed =>
                    if negb (truthy (default [] trimmed)) then
                      (Ok (json_response 400 (ErrorBody (str "No user message content."))), [])
                    else
                      match map_toContent (historyMessages messages) with
                      | Throw err => (Throw err, [])
                      | Ok hist =>
                          let call := {| systemInstruction := systemPrompt;
                                         history := hist;
                                         input := default [] trimmed |} in
                          match model call with
                          | Fails err => (Throw err, [call])
                          | Text t =>
                              let reply := trim (default [] t) in
                              if negb (truthy reply) then
                                (Ok (json_response 502 (ErrorBody (str
                                   "The diary had nothing to say. It may have been blocked or returned no text. Try rephrasing."))),
                                 [call])
                              else (Ok (json_response 200 (ContentBody reply)), [call])
                          end
                      end
                end
            end
        end
    end.

(** The handler: the [catch] clause turns a thrown value into a 500. *)
Definition POST (apiKey : option jsstring) (request : option json)
  (model : ModelCall -> ModelReply) : Response * list ModelCall :=
  match POST_try apiKey request model with
  | (Ok response, sent) => (response, sent)
  | (Throw err, sent) => (json_response 500 (ErrorBody (toErrorMessage err)), sent)
  end.

(** A turn as the handler types it: [{ role: string; content: string }]. *)
Record Turn := { turn_role : jsstring; turn_content : jsstring }.

Definition encode (t : Turn) : json :=
  JObject [(str "role", JString (turn_role t)); (str "content", JString (turn_content t))].

(** The request body [{ messages: [...] }]. *)
Definition request_of (turns : list Turn) : json :=
  JObject [(str "messages", JArray (map encode turns))].

(** *** The vocabulary of the contract *)

(** The service credential is configured: the variable is set and not empty. *)
Definition configured (apiKey : option jsstring) : Prop :=
  truthy (default [] apiKey) = true.

Definition is_user_turn (t : Turn) : Prop := turn_role t = str "user".

(** The final user turn: the last turn whose role is ["user"]. *)
Definition final_user_turn (turns : list Turn) : option Turn :=
  last (filter is_user_turn turns).

(** The final user turn is missing or has no non-whitespace content. *)
Definition no_user_content (turns : list Turn) : Prop :=
  match final_user_turn turns with
  | None => True
  | Some t => blank (turn_content t)
  end.

(** The messages of the request, when there are any, are typed turns. *)
Definition typed (request : option json) : Prop :=
  forall body items, request = Some body -> messages_of body = Some items ->
    exists turns, items = map encode turns.

(** A turn in the representation of the hosted model: role ["user"] stays,
    every other role becomes ["model"]. *)
Definition as_content (t : Turn) : Content :=
  {| role := if bool_decide (is_user_turn t) then str "user" else str "model";
     text := Some (JString (turn_content t)) |}.

(** The turns that [historyMessages] keeps, on typed turns. *)
Definition replayed (turns : list Turn) : list Turn :=
  let prior := take (length turns - 1) turns in
  drop (length prior - 20) prior.

(** The call made for a list of turns whose final user turn is [t]. *)
Definition call_for (turns : list Turn) (t : Turn) : ModelCall :=
  {| systemInstruction := systemPrompt;
     history := map as_content (replayed turns);
     input := trim (turn_content t) |}.

(** *** Sample requests *)

Definition sample_key : option jsstring := Some (str "key").

Definition echo_model (call : ModelCall) : ModelReply := Text (Some (input call)).

Definition turn_blank : Turn := {| turn_role := str "user"; turn_content := str "   " |}.

Definition turn_padded : Turn := {| turn_role := str "user"; turn_content := str " hi " |}.

Definition turn_assistant : Turn :=
  {| turn_role := str "assistant"; turn_content := str "Good evening." |}.

Definition body_with_null : json :=
  JObject [(str "messages", JArray [encode turn_padded; JNull])].

Definition body_numeric : json :=
  JObject [(str "messages",
            JArray [JObject [(str "role", JString (str "user"));
                             (str "content", JNumber 5%float)]])].

End Route.

(** ** The page and the relay together *)

Module Wire.

(** [m.role] in the request body. *)
Definition role_name (r : Page.Role) : jsstring :=
  match r with
  | Page.user => str "user"
  | Page.assistant => str "assistant"
  end.

(** [(m) => ({ role: m.role, content: m.content })] *)
Definition to_turn (m : Page.Message) : Route.Turn :=
  {| Route.turn_role := role_name (Page.role m);
     Route.turn_content := Page.content m |}.

(** [JSON.stringify({ messages: history.map(...) })], as [req.json()]
    decodes it. *)
Definition request (history : list Page.Message) : Route.json :=
  Route.request_of (map to_turn history).

(** [res.ok]: a status from 200 to 299. *)
Definition ok (status : Z) : bool := (200 <=? status)%Z && (status <=? 299)%Z.

(** [await res.json()] on a body made by [NextResponse.json]. *)
Definition data_of (b : Route.Body) : Page.Data :=
  match b with
  | Route.ErrorBody error =>
      {| Page.data_error := Some error; Page.data_content := None |}
  | Route.ContentBody content =>
      {| Page.data_error := None; Page.data_content := Some content |}
  end.

(** The relay's response as [fetch] hands it to the page. *)
Definition deliver (resp : Route.Response) : Page.FetchResult :=
  Page.Responded (ok (Route.status resp)) (Some (data_of (Route.body resp))).

(** The page's [fetch("/api/chat", ...)] served by the relay. *)
Definition served (apiKey : option jsstring) (model : Route.ModelCall -> Route.ModelReply)
  (history : list Page.Message) : Route.Response * list Route.ModelCall :=
  Route.POST apiKey (Some (request history)) model.

(** The model call that the relay makes for a submission of [text] on a
    page whose history is [msgs]. *)
Definition call_of (msgs : list Page.Message) (text : jsstring) : Route.ModelCall :=
  {| Route.systemInstruction := Route.systemPrompt;
     Route.history :=
       map (fun m =>
              {| Route.role := match Page.role m with
                               | Page.user => str "user"
                               | Page.assistant => str "model"
                               end;
                 Route.text := Some (Route.JString (Page.content m)) |})
           (drop (length msgs - 20) msgs);
     Route.input := text |}.

(** The chat after a whole [sendMessage] call served by the relay. *)
Definition round (apiKey : option jsstring) (model : Route.ModelCall -> Route.ModelReply)
  (c : Page.Chat) : Page.Chat :=
  let text := trim (Page.inputValue c) in
  let history := Page.messages c ++ [{| Page.role := Page.user; Page.content := text |}] in
  Page.complete (deliver (served apiKey model history).1) (Page.sendMessage c) c.

Definition chat_two : Page.Chat :=
  {| Page.inputValue := str " and you? ";
     Page.messages := [ {| Page.role := Page.user; Page.content := str "hi" |};
                        {| Page.role := Page.assistant; Page.content := str "Hello." |} ];
     Page.currentResponse := [];
     Page.isLoading := false;
     Page.fadingUserText := None |}.

Definition polite_model (call : Route.ModelCall) : Route.ModelReply :=
  Route.Text (Some (str " Quite well. ")).

Definition silent_model (call : Route.ModelCall) : Route.ModelReply :=
  Route.Text (Some (str "  ")).

Definition failing_model (call : Route.ModelCall) : Route.ModelReply :=
  Route.Fails (Route.ErrorObject (str "quota exceeded")).

End Wire.

(** * Properties *)

(** ** Strings *)

Section strings.
Implicit Types (s : jsstring) (c : N).

Lemma trimStart_blank s : blank s -> trimStart s = [].
Proof. induction 1 as [|c s Hc _ IH]; simpl; [done|]. by rewrite Hc. Qed.

Lemma trimStart_nil_blank s : trimStart s = [] -> blank s.
Proof.
  induction s as [|c s IH]; simpl; intros H; [by constructor|].
  destruct (is_ws c) eqn:Hc; [|discriminate]. constructor; [done|by apply IH].
Qed.

Lemma blank_reverse s : blank (reverse s) <-> blank s.
Proof. apply Forall_reverse. Qed.

Lemma trim_blank s : blank s -> trim s = [].
Proof. intros H. unfold trim, trimEnd. by rewrite (trimStart_blank s H). Qed.

Lemma trimStart_suffix s : exists ws, s = ws ++ trimStart s /\ blank ws.
Proof.
  induction s as [|c s (ws & Hs & Hws)]; simpl.
  - exists []. split; [done|constructor].
  - destruct (is_ws c) eqn:Hc.
    + exists (c :: ws). split; [by rewrite Hs at 1|by constructor].
    + exists []. split; [done|constructor].
Qed.

Lemma trim_nil_blank s : trim s = [] -> blank s.
Proof.
  unfold trim, trimEnd. intros H.
  destruct (trimStart_suffix s) as (ws & Hs & Hws).
  assert (Hr : trimStart (reverse (trimStart s)) = []).
  { apply (f_equal reverse) in H. by rewrite reverse_involutive in H. }
  apply trimStart_nil_blank in Hr. apply (proj1 (blank_reverse _)) in Hr.
  rewrite Hs. unfold blank in *. apply Forall_app. by split.
Qed.


Lemma truthy_false s : truthy s = false <-> s = [].
Proof. by destruct s. Qed.

Lemma truthy_true s : truthy s = true <-> s <> [].
Proof. by destruct s. Qed.
End strings.

(** ** The page: [sendMessage] *)

Section sendMessage.
Import Page.
Implicit Types (c : Chat) (r : FetchResult) (p k : Async) (es : list Effect).

Lemma complete_app c es1 es2 :
  foldl (fun c e => perform e c) c (es1 ++ es2)
  = foldl (fun c e => perform e c) (foldl (fun c e => perform e c) c es1) es2.
Proof. apply foldl_app. Qed.

(** The letter-by-letter reveal touches nothing but [currentResponse]. *)
Lemma reveal_effects r fullText n i k :
  exists es,
    effects r (reveal fullText n i k) = es ++ effects r k
    /\ message_updates es = 0 /\ fetches es = 0
    /\ (forall prev, history_after es prev = prev)
    /\ (forall c, messages (foldl (fun c e => perform e c) c es) = messages c)
    /\ (forall c, isLoading (foldl (fun c e => perform e c) c es) = isLoading c).
Proof.
  revert i. induction n as [|n IH]; intros i; simpl.
  - exists []. by repeat split.
  - destruct (IH (S i)) as (es & -> & Hm & Hf & Hh & Hc & Hl).
    exists (Slept LETTER_DELAY_MS :: Updated (setCurrentResponse (slice0 fullText i)) :: es).
    repeat split; try done.
    + intros c. simpl. by rewrite Hc.
    + intros c. simpl. by rewrite Hl.
Qed.

(** What the synchronous part of a submission does. *)
Lemma sendMessage_submits c :
  trim (inputValue c) <> [] -> isLoading c = false ->
  sendMessage c =
    let text := trim (inputValue c) in
    Do (setInputValue [])
   (Do (setFadingUserText (Some text))
   (Do (setMessages (fun prev => prev ++ [{| role := user; content := text |}]))
   (Do (setIsLoading true)
   (Do (setCurrentResponse [])
   (AwaitFetch (messages c ++ [{| role := user; content := text |}]) afterFetch))))).
Proof.
  intros Ht Hl. unfold sendMessage. rewrite Hl.
  apply truthy_true in Ht. by rewrite Ht.
Qed.

Lemma sendMessage_ignores c :
  trim (inputValue c) = [] \/ isLoading c = true -> sendMessage c = Return.
Proof.
  unfold sendMessage. intros [Ht | Hl].
  - by rewrite Ht.
  - rewrite Hl. by rewrite orb_true_r.
Qed.

(** The continuation after a successful response. *)
Lemma afterFetch_success r reply :
  Success r reply ->
  afterFetch r =
    AwaitTimeout 2000
      (reveal reply (S (length reply)) 0
         (Do (setMessages (fun prev => prev ++ [{| role := assistant; content := reply |}]))
             (Do (setCurrentResponse []) finally_block))).
Proof.
  destruct 1 as [d reply Hd Hr]. simpl. rewrite Hd.
  apply truthy_true in Hr. by rewrite Hr.
Qed.

(** The continuation after a failure. *)
Lemma afterFetch_failure r text :
  Failure r text -> afterFetch r = catch_block (ErrorObject text).
Proof.
  destruct 1 as [m| |d e Hd He|d Hd| | |d Hd]; simpl; try done.
  - rewrite Hd. simpl. apply truthy_true in He. by rewrite He.
  - by destruct Hd as [-> | ->].
  - destruct Hd as [-> | (s & -> & Hs)]; [done|]. by rewrite (trim_blank s Hs).
Qed.

(** Every way the fetch can settle is a success or a failure. *)
Lemma settled_cases r : (exists reply, Success r reply) \/ (exists text, Failure r text).
Proof.
  destruct r as [[m|]|[|] [d|]].
  - right. eexists. constructor.
  - right. eexists. constructor.
  - destruct (data_content d) as [s|] eqn:Hd.
    + destruct (trim s) as [|x t] eqn:Ht.
      * right. eexists. apply failure_empty_reply. right. exists s.
        split; [done|]. by apply trim_nil_blank.
      * left. exists (trim s). constructor; [done|]. by rewrite Ht.
    + right. eexists. apply failure_empty_reply. by left.
  - right. eexists. constructor.
  - destruct (data_error d) as [[|x e]|] eqn:Hd.
    + right. eexists. apply failure_status_without_error. by right.
    + right. exists (x :: e). by apply failure_status_with_error.
    + right. eexists. apply failure_status_without_error. by left.
  - right. eexists. constructor.
Qed.

Lemma message_updates_app es1 es2 :
  message_updates (es1 ++ es2) = message_updates es1 + message_updates es2.
Proof. unfold message_updates. by rewrite filter_app, length_app. Qed.

Lemma fetches_app es1 es2 : fetches (es1 ++ es2) = fetches es1 + fetches es2.
Proof. unfold fetches. by rewrite filter_app, length_app. Qed.

Lemma history_after_app es1 es2 prev :
  history_after (es1 ++ es2) prev = history_after es2 (history_after es1 prev).
Proof. apply foldl_app. Qed.

(** C1. A submission with non-blank text, made while no request is in
    flight, appends the user message (the trimmed text) before the fetch
    starts: the call is suspended on the fetch with the user message
    already in the history, and the request carries it.  When the relay
    answers with a reply, the whole call makes exactly one history update
    before the fetch (the user message) and exactly one after it (the
    assistant message with the reply), so the history ends as the old one
    followed by the user message and the assistant message. *)
Theorem sendMessage_appends_user_then_assistant c r reply :
  trim (inputValue c) <> [] -> isLoading c = false -> Success r reply ->
  let u := {| role := user; content := trim (inputValue c) |} in
  let a := {| role := assistant; content := reply |} in
  (exists c1, exec (sendMessage c) c = (c1, OnFetch (messages c ++ [u]) afterFetch)
              /\ messages c1 = messages c ++ [u])
  /\ (exists pre post,
        effects r (sendMessage c) = pre ++ Fetched (messages c ++ [u]) :: post
        /\ fetches pre = 0 /\ fetches post = 0
        /\ message_updates pre = 1 /\ message_updates post = 1
        /\ (forall prev, history_after pre prev = prev ++ [u])
        /\ (forall prev, history_after post prev = prev ++ [a]))
  /\ messages (complete r (sendMessage c) c) = messages c ++ [u; a].
Proof.
  intros Ht Hl Hs u a.
  rewrite (sendMessage_submits c Ht Hl). cbv zeta. fold u.
  destruct (reveal_effects r reply (S (length reply)) 0
              (Do (setMessages (fun prev => prev ++ [a]))
                  (Do (setCurrentResponse []) finally_block)))
    as (es & Hes & Hm & Hf & Hh & Hc & _).
  assert (Heff : effects r (afterFetch r)
                 = (Slept 2000 :: es)
                   ++ [Updated (setMessages (fun prev => prev ++ [a]));
                       Updated (setCurrentResponse []);
                       Updated (setIsLoading false)]).
  { rewrite (afterFetch_success r reply Hs). cbn [effects]. fold a. by rewrite Hes. }
  split; [|split].
  - eexists. split; [reflexivity|]. done.
  - exists [Updated (setInputValue []); Updated (setFadingUserText (Some (content u)));
            Updated (setMessages (fun prev => prev ++ [u])); Updated (setIsLoading true);
            Updated (setCurrentResponse [])].
    eexists. split; [simpl; rewrite Heff; reflexivity|].
    split; [done|]. split.
    { rewrite fetches_app. change (fetches (Slept 2000 :: es)) with (fetches es).
      by rewrite Hf. }
    split; [done|]. split.
    { rewrite message_updates_app.
      change (message_updates (Slept 2000 :: es)) with (message_updates es).
      by rewrite Hm. }
    split; [done|]. intros prev. rewrite history_after_app.
    change (history_after (Slept 2000 :: es) prev) with (history_after es prev).
    by rewrite Hh.
  - unfold complete. simpl. rewrite Heff, complete_app. simpl. rewrite Hc.
    simpl. by rewrite <- app_assoc.
Qed.

(** C6. A submission whose text is empty or whitespace-only does
    nothing: the call finishes at once without a state update or a
    fetch, so the history, the loading flag and the transient response
    are what they were; the Enter key handler leaves the state as it
    was. *)
Theorem sendMessage_blank_ignored c r :
  blank (inputValue c) ->
  exec (sendMessage c) c = (c, Finished)
  /\ effects r (sendMessage c) = []
  /\ complete r (sendMessage c) c = c
  /\ (forall st cs, chat st = c ->
        (handle (InputKeyDown (str "Enter") false) st cs).1 = st).
Proof.
  intros Hb. rewrite (sendMessage_ignores c) by (left; by apply trim_blank).
  repeat split. intros [c' f h] cs Hc. simpl in Hc. subst c'. simpl.
  destruct (inputRendered _ && _ && _); [|done].
  rewrite (sendMessage_ignores c) by (left; by apply trim_blank). done.
Qed.

(** C7 (amended). A failing submission appends, after the user message,
    exactly one assistant message whose content is the message text of
    the error raised ([Failure] lists the errors: a thrown [Error] keeps
    its own message, a thrown value that is not an [Error] gets the fixed
    fallback text) and it clears the loading flag. *)
Theorem sendMessage_failure_appends_error_text c r text :
  trim (inputValue c) <> [] -> isLoading c = false -> Failure r text ->
  let u := {| role := user; content := trim (inputValue c) |} in
  let a := {| role := assistant; content := text |} in
  messages (complete r (sendMessage c) c) = messages c ++ [u; a]
  /\ isLoading (complete r (sendMessage c) c) = false
  /\ exists pre post,
       effects r (sendMessage c) = pre ++ Fetched (messages c ++ [u]) :: post
       /\ message_updates post = 1
       /\ forall prev, history_after post prev = prev ++ [a].
Proof.
  intros Ht Hl Hf u a.
  rewrite (sendMessage_submits c Ht Hl). cbv zeta. fold u.
  unfold complete. cbn [effects]. rewrite (afterFetch_failure r text Hf).
  simpl. fold a. split; [by rewrite <- app_assoc|]. split; [done|].
  exists [Updated (setInputValue []); Updated (setFadingUserText (Some (content u)));
          Updated (setMessages (fun prev => prev ++ [u])); Updated (setIsLoading true);
          Updated (setCurrentResponse [])].
  eexists. split; [reflexivity|]. by split.
Qed.

Lemma sendMessage_appends_user_then_assistant_witness :
  trim (inputValue chat_hi) <> [] /\ isLoading chat_hi = false
  /\ Success reply_hello (str "Hello.")
  /\ messages (complete reply_hello (sendMessage chat_hi) chat_hi)
     = [ {| role := user; content := str "hi" |};
         {| role := assistant; content := str "Hello." |} ].
Proof.
  assert (Ht : trim (inputValue chat_hi) <> []) by (vm_compute; discriminate).
  assert (Hs : Success reply_hello (str "Hello.")).
  { apply (success_reply {| data_error := None; data_content := Some (str "Hello. ") |}
             (str "Hello. ")); [reflexivity|vm_compute; discriminate]. }
  split; [exact Ht|]. split; [reflexivity|]. split; [exact Hs|].
  exact (proj2 (proj2 (sendMessage_appends_user_then_assistant
                         chat_hi reply_hello (str "Hello.") Ht eq_refl Hs))).
Defined.

Lemma sendMessage_blank_ignored_witness :
  blank (inputValue chat_spaces)
  /\ complete reply_hello (sendMessage chat_spaces) chat_spaces = chat_spaces
  /\ effects reply_hello (sendMessage chat_spaces) = [].
Proof.
  assert (Hb : blank (inputValue chat_spaces)) by (repeat constructor).
  split; [exact Hb|].
  pose proof (sendMessage_blank_ignored chat_spaces reply_hello Hb) as (_ & He & Hc & _).
  split; assumption.
Defined.

Lemma sendMessage_failure_appends_error_text_witness :
  trim (inputValue chat_hi) <> [] /\ isLoading chat_hi = false
  /\ Failure (Responded false None) (str "Request failed.")
  /\ messages (complete (Responded false None) (sendMessage chat_hi) chat_hi)
     = [ {| role := user; content := str "hi" |};
         {| role := assistant; content := str "Request failed." |} ].
Proof.
  assert (Ht : trim (inputValue chat_hi) <> []) by (vm_compute; discriminate).
  split; [exact Ht|]. split; [reflexivity|]. split; [constructor|].
  exact (proj1 (sendMessage_failure_appends_error_text
                  chat_hi (Responded false None) (str "Request failed.")
                  Ht eq_refl failure_status_undecodable)).
Defined.

(** C7 as stated fails: when [fetch] rejects with a [TypeError], as it
    does on a network failure, the assistant message carries that error's
    own message, not the fixed fallback text. *)
Lemma network_error_keeps_its_message :
  let r := Rejected (ErrorObject (str "Failed to fetch")) in
  last (messages (complete r (sendMessage chat_hi) chat_hi))
  = Some {| role := assistant; content := str "Failed to fetch" |}
  /\ str "Failed to fetch" <> FALLBACK_MESSAGE.
Proof. split; [reflexivity|vm_compute; discriminate]. Qed.

End sendMessage.

(** ** The page: the history only grows *)

Section history.
Import Page.
Implicit Types (c : Chat) (p : Async) (st : State) (cs : list Suspended)
  (pg : Component) (ev : Event).

Lemma extends_refl l : extends l l.
Proof. exists []. by rewrite app_nil_r. Qed.

Lemma extends_trans l1 l2 l3 : extends l2 l1 -> extends l3 l2 -> extends l3 l1.
Proof. intros [a ->] [b ->]. exists (a ++ b). by rewrite app_assoc. Qed.

Lemma extends_lookup new old i m : extends new old -> old !! i = Some m -> new !! i = Some m.
Proof. intros [a ->] H. by apply lookup_app_l_Some. Qed.

Lemma apply_extends u c : appends u -> extends (messages (apply u c)) (messages c).
Proof.
  destruct u; simpl; try (intros _; apply extends_refl).
  intros [m Hm]. exists [m]. apply Hm.
Qed.

Lemma exec_extends p : forall c,
  append_only p ->
  extends (messages (exec p c).1) (messages c) /\ suspended_append_only (exec p c).2.
Proof.
  induction p as [|u k IH|body k _|ms k _]; intros c Hp; simpl in *.
  - split; [apply extends_refl|done].
  - destruct Hp as [Hu Hk]. destruct (IH (apply u c) Hk) as [He Hs].
    split; [|done]. eapply extends_trans; [by apply apply_extends|done].
  - split; [apply extends_refl|done].
  - split; [apply extends_refl|done].
Qed.

Lemma finally_append_only : append_only finally_block.
Proof. by simpl. Qed.

Lemma catch_append_only err : append_only (catch_block err).
Proof. simpl. split; [by eexists|done]. Qed.

Lemma reveal_append_only fullText n : forall i k,
  append_only k -> append_only (reveal fullText n i k).
Proof. induction n as [|n IH]; intros i k Hk; simpl; [done|]. split; [done|by apply IH]. Qed.

Lemma afterFetch_append_only r : append_only (afterFetch r).
Proof.
  destruct r as [err|ok json]; unfold afterFetch; [apply catch_append_only|].
  destruct (negb ok); [apply catch_append_only|].
  destruct (negb (truthy _)); [apply catch_append_only|].
  cbn [append_only]. apply reveal_append_only.
  cbn [append_only appends finally_block]. split; [by eexists|done].
Qed.

Lemma sendMessage_append_only c : append_only (sendMessage c).
Proof.
  unfold sendMessage. destruct (negb _ || _); cbn [append_only appends]; [done|].
  repeat split; try done; [by eexists|apply afterFetch_append_only].
Qed.

Lemma resume_extends call p st cs :
  append_only p -> calls_append_only cs ->
  extends (messages (chat (resume call p st cs).1)) (messages (chat st))
  /\ calls_append_only (resume call p st cs).2.
Proof.
  intros Hp Hcs. unfold resume.
  destruct (exec_extends p (chat st) Hp) as [He Hs].
  destruct (exec p (chat st)) as [c s]. simpl in *.
  split; [done|]. by apply Forall_insert.
Qed.

(** No handler removes or rewrites an entry of the history. *)
Lemma handle_extends ev st cs :
  calls_append_only cs ->
  extends (messages (chat (handle ev st cs).1)) (messages (chat st))
  /\ calls_append_only (handle ev st cs).2.
Proof.
  intros Hcs. destruct ev; simpl.
  - split; [apply extends_refl|done].
  - destruct (scrollFlashTimeoutRef (hints st)) as [[|]|];
      (split; [apply extends_refl|done]).
  - split; [apply extends_refl|done].
  - destruct (clickPromptTimeoutRef (hints st)) as [[|]|];
      (split; [apply extends_refl|done]).
  - split; [|done]. unfold onKeyDown.
    repeat (match goal with |- context [if ?b then _ else _] => destruct b end);
      apply extends_refl.
  - destruct (inputRendered st); (split; [apply extends_refl|done]).
  - destruct (inputRendered st && _ && _); [|split; [apply extends_refl|done]].
    destruct (exec_extends (sendMessage (chat st)) (chat st)
                (sendMessage_append_only (chat st))) as [He Hs].
    destruct (exec (sendMessage (chat st)) (chat st)) as [c s]. simpl in *.
    split; [done|]. apply Forall_app. split; [done|by constructor].
  - split; [apply extends_refl|done].
  - destruct (cs !! call) as [[|body k|ms k]|] eqn:Hcall;
      try (split; [apply extends_refl|done]).
    apply resume_extends; [|done].
    eapply Forall_lookup_1 in Hcs; [|done]. apply Hcs.
  - destruct (cs !! call) as [[|body k|ms k]|] eqn:Hcall;
      try (split; [apply extends_refl|done]).
    apply resume_extends; [|done].
    eapply Forall_lookup_1 in Hcs; [|done]. apply Hcs.
  - split; [apply extends_refl|done].
  - split; [apply extends_refl|done].
  - split; [apply extends_refl|done].
  - split; [apply extends_refl|done].
Qed.

Lemma step_extends pg ev :
  calls_append_only (calls pg) ->
  extends (messages (chat (state (step pg ev)))) (messages (chat (state pg)))
  /\ calls_append_only (calls (step pg ev)).
Proof.
  intros Hcs. unfold step. destruct (negb (mounted pg)).
  { split; [apply extends_refl|done]. }
  destruct (handle_extends ev (state pg) (calls pg) Hcs) as [He Hs].
  destruct (handle ev (state pg) (calls pg)) as [st cs]. simpl in *.
  destruct (fadeEffect (messages (chat st)) (fades st)) as [f started].
  by destruct ev.
Qed.

Lemma steps_extends evs : forall pg,
  calls_append_only (calls pg) ->
  extends (messages (chat (state (foldl step pg evs)))) (messages (chat (state pg)))
  /\ calls_append_only (calls (foldl step pg evs)).
Proof.
  induction evs as [|ev evs IH]; intros pg Hcs; simpl.
  - split; [apply extends_refl|done].
  - destruct (step_extends pg ev Hcs) as [He Hs].
    destruct (IH (step pg ev) Hs) as [He' Hs'].
    split; [|done]. by eapply extends_trans.
Qed.

Lemma run_calls_append_only evs : calls_append_only (calls (run evs)).
Proof. apply steps_extends. constructor. Qed.

(** C10. The history is append-only.  In every state the component can
    reach, whatever event comes next (any handler, a settled fetch, an
    elapsed timer, the unmount), the history afterwards is the history
    before with messages added at its end; so an entry, once in the
    history, stays at its index with its role and content through every
    later run of events. *)
Theorem history_append_only evs :
  (forall ev,
     extends (messages (chat (state (step (run evs) ev))))
             (messages (chat (state (run evs)))))
  /\ (forall evs' i m,
        messages (chat (state (run evs))) !! i = Some m ->
        messages (chat (state (run (evs ++ evs')))) !! i = Some m).
Proof.
  split.
  - intros ev. apply step_extends, run_calls_append_only.
  - intros evs' i m Hi. unfold run. rewrite foldl_app.
    eapply extends_lookup; [|done].
    apply steps_extends, run_calls_append_only.
Qed.

End history.

(** ** The page: fade scheduling *)

Section fades.
Import Page.
Implicit Types (f : Fades) (msgs h : list Message) (msg : Message)
  (ts : list FadeTimer) (i j k : nat).

Lemma is_assistant_role msg : is_assistant msg = true <-> role msg = assistant.
Proof. unfold is_assistant. by destruct (role msg). Qed.

Lemma scheduleFade_new i msg f :
  role msg = assistant -> i ∉ scheduledFadeRef f ->
  scheduleFade i msg f =
    ({| fadingAssistantIndices := fadingAssistantIndices f;
        scheduledFadeRef := {[i]} ∪ scheduledFadeRef f;
        assistantFadeTimeoutsRef :=
          <[i := getAIMessageFadeDelayMs (content msg)]> (assistantFadeTimeoutsRef f) |},
     [(i, getAIMessageFadeDelayMs (content msg))]).
Proof.
  intros Hr Hi. unfold scheduleFade.
  rewrite (proj2 (is_assistant_role msg) Hr). by rewrite bool_decide_eq_false_2.
Qed.

Lemma scheduleFade_skip i msg f :
  role msg <> assistant \/ i ∈ scheduledFadeRef f -> scheduleFade i msg f = (f, []).
Proof.
  intros H. unfold scheduleFade.
  destruct (is_assistant msg) eqn:Ha; simpl; [|done].
  destruct H as [H|H]; [by apply is_assistant_role in Ha|].
  by rewrite bool_decide_eq_true_2.
Qed.

(** What one pass over the history schedules. *)
Lemma forEach_from_spec msgs : forall i f,
  let f' := (forEach_from i msgs f).1 in
  let ts := (forEach_from i msgs f).2 in
  scheduledFadeRef f' = scheduledFadeRef f ∪ list_to_set (ts.*1)
  /\ NoDup (ts.*1)
  /\ (forall j d, (j, d) ∈ ts ->
        (j ∉ scheduledFadeRef f)
        /\ exists k msg, j = i + k /\ msgs !! k = Some msg /\ role msg = assistant
                         /\ d = getAIMessageFadeDelayMs (content msg))
  /\ (forall k msg, msgs !! k = Some msg -> role msg = assistant ->
        i + k ∈ scheduledFadeRef f').
Proof.
  induction msgs as [|m rest IH]; intros i f; simpl.
  { repeat split; [set_solver|constructor|set_solver|set_solver|done]. }
  destruct (decide (role m = assistant /\ i ∉ scheduledFadeRef f)) as [[Hr Hi]|Hn].
  - rewrite (scheduleFade_new i m f Hr Hi).
    set (f1 := {| scheduledFadeRef := _ |}).
    specialize (IH (S i) f1). destruct (forEach_from (S i) rest f1) as [f2 t2].
    simpl in *. destruct IH as (Hs & Hnd & Hin & Hall).
    split; [set_solver|]. split.
    { constructor; [|done]. intros Hi2. apply list_elem_of_fmap in Hi2 as ([j d] & -> & Hjd).
      apply Hin in Hjd as [Hj _]. set_solver. }
    split.
    { intros j d Hjd. apply elem_of_cons in Hjd as [[= -> ->]|Hjd].
      - split; [done|]. exists 0, m. rewrite Nat.add_0_r. by repeat split.
      - apply Hin in Hjd as (Hj & k & msg & -> & Hk & Hrole & ->).
        split; [set_solver|]. exists (S k), msg.
        repeat split; [lia|done|done]. }
    intros [|k] msg Hk Hrole; simpl in Hk.
    { rewrite Hs. rewrite Nat.add_0_r. set_solver. }
    replace (i + S k) with (S i + k) by lia. by eapply Hall.
  - rewrite (scheduleFade_skip i m f).
    2:{ destruct (decide (role m = assistant)); [|by left].
        right. destruct (decide (i ∈ scheduledFadeRef f)); [done|]. by destruct Hn. }
    specialize (IH (S i) f). destruct (forEach_from (S i) rest f) as [f2 t2].
    simpl in *. destruct IH as (Hs & Hnd & Hin & Hall).
    split; [done|]. split; [done|]. split.
    { intros j d Hjd. apply Hin in Hjd as (Hj & k & msg & -> & Hk & Hrole & ->).
      split; [done|]. exists (S k), msg. repeat split; [lia|done|done]. }
    intros [|k] msg Hk Hrole; simpl in Hk.
    { injection Hk as ->. rewrite Hs, Nat.add_0_r.
      destruct (decide (i ∈ scheduledFadeRef f)); [set_solver|]. by destruct Hn. }
    replace (i + S k) with (S i + k) by lia. by eapply Hall.
Qed.





End fades.

(** ** The relay *)

Section relay.
Import Route.
Implicit Types (t : Turn) (turns : list Turn) (apiKey : option jsstring)
  (model : ModelCall -> ModelReply) (body : json).

Lemma messages_of_request turns : messages_of (request_of turns) = Some (map encode turns).
Proof. reflexivity. Qed.

Lemma role_is_user_encode t :
  role_is_user (encode t) = Ok (bool_decide (is_user_turn t)).
Proof. reflexivity. Qed.

Lemma filter_user_encode turns :
  filter_user (map encode turns) = Ok (map encode (filter is_user_turn turns)).
Proof.
  induction turns as [|t turns IH]; [done|].
  cbn [map filter_user]. rewrite role_is_user_encode, IH. cbn [bind].
  case_bool_decide; [by rewrite filter_cons_True|by rewrite filter_cons_False].
Qed.

Lemma last_map_encode turns : last (map encode turns) = encode <$> last turns.
Proof. by rewrite <- fmap_last. Qed.

Lemma content_trim_encode (o : option Turn) :
  content_trim (encode <$> o) = Ok ((fun t => trim (turn_content t)) <$> o).
Proof. by destruct o. Qed.

Lemma toContent_encode t : toContent (encode t) = Ok (as_content t).
Proof. reflexivity. Qed.

Lemma map_toContent_encode turns :
  map_toContent (map encode turns) = Ok (map as_content turns).
Proof.
  induction turns as [|t turns IH]; [done|].
  cbn [map map_toContent]. by rewrite toContent_encode, IH.
Qed.

Lemma historyMessages_encode turns :
  historyMessages (map encode turns)
  = map encode (replayed turns).
Proof.
  unfold historyMessages, replayed. rewrite length_map.
  change (@map Turn json) with (@fmap list _ Turn json).
  by rewrite <- fmap_take, length_fmap, <- fmap_drop.
Qed.

Lemma configured_truthy apiKey :
  configured apiKey -> negb (truthy (default [] apiKey)) = false.
Proof. unfold configured. by intros ->. Qed.

(** The handler on a request whose messages are typed turns. *)
Lemma POST_turns apiKey body turns model :
  configured apiKey -> messages_of body = Some (map encode turns) -> turns <> [] ->
  POST apiKey (Some body) model =
    match final_user_turn turns with
    | None => (json_response 400 (ErrorBody (str "No user message content.")), [])
    | Some t =>
        if truthy (trim (turn_content t)) then
          match model (call_for turns t) with
          | Fails err =>
              (json_response 500 (ErrorBody (toErrorMessage err)), [call_for turns t])
          | Text reply =>
              if truthy (trim (default [] reply)) then
                (json_response 200 (ContentBody (trim (default [] reply))),
                 [call_for turns t])
              else
                (json_response 502 (ErrorBody (str
                   "The diary had nothing to say. It may have been blocked or returned no text. Try rephrasing.")),
                 [call_for turns t])
          end
        else (json_response 400 (ErrorBody (str "No user message content.")), [])
    end.
Proof.
  intros Hk Hm Hne. unfold POST, POST_try.
  rewrite (configured_truthy apiKey Hk), Hm.
  clear Hm. remember (map encode turns) as items eqn:Hmap.
  destruct items as [|m ms]; [by destruct turns|]. rewrite Hmap. clear m ms Hmap.
  rewrite filter_user_encode, last_map_encode, content_trim_encode.
  unfold final_user_turn.
  destruct (last (filter is_user_turn turns)) as [t|]; [|reflexivity].
  change ((fun t0 => trim (turn_content t0)) <$> Some t) with (Some (trim (turn_content t))).
  change (default [] (Some (trim (turn_content t)))) with (trim (turn_content t)).
  destruct (truthy (trim (turn_content t))); [|reflexivity]. cbn [negb].
  rewrite historyMessages_encode, map_toContent_encode.
  fold (call_for turns t).
  destruct (model (call_for turns t)) as [reply|err]; [|reflexivity].
  destruct (truthy (trim (default [] reply))); reflexivity.
Qed.

Lemma final_user_turn_none turns :
  Forall (fun t => ¬ is_user_turn t) turns -> final_user_turn turns = None.
Proof.
  intros H. unfold final_user_turn.
  replace (filter is_user_turn turns) with (@nil Turn); [done|].
  symmetry. induction H as [|t turns Ht _ IH]; [done|]. by rewrite filter_cons_False.
Qed.

Lemma final_user_turn_snoc turns t :
  is_user_turn t -> final_user_turn (turns ++ [t]) = Some t.
Proof.
  intros Ht. unfold final_user_turn.
  rewrite filter_app, filter_cons_True, filter_nil by done. by rewrite last_snoc.
Qed.


(** C4 (amended). With the service credential configured and messages
    that are typed turns, the relay answers 400 exactly when the body does
    not decode, or it has no [messages] array or an empty one, or the
    turns have no final user turn with non-whitespace content.  In
    particular [{messages: []}] gets 400 "messages array is required." and
    a list that ends with the user turn ["   "] gets 400 "No user message
    content."; neither reaches the hosted model. *)
Theorem relay_rejects_bad_input apiKey request model :
  configured apiKey -> typed request ->
  (status (POST apiKey request model).1 = 400%Z
   <-> (request = None
        \/ (exists body, request = Some body
              /\ (messages_of body = None \/ messages_of body = Some []))
        \/ (exists body turns, request = Some body
              /\ messages_of body = Some (map encode turns)
              /\ turns <> [] /\ no_user_content turns)))
  /\ POST apiKey (Some (request_of [])) model
     = (json_response 400 (ErrorBody (str "messages array is required.")), [])
  /\ (forall turns,
        POST apiKey (Some (request_of (turns ++ [turn_blank]))) model
        = (json_response 400 (ErrorBody (str "No user message content.")), [])).
Proof.
  intros Hk Hty. split; [|split].
  - destruct request as [body|].
    2:{ unfold POST, POST_try. rewrite (configured_truthy apiKey Hk). simpl.
        split; [by left|done]. }
    destruct (messages_of body) as [[|m ms]|] eqn:Hm.
    + unfold POST, POST_try. rewrite (configured_truthy apiKey Hk), Hm. simpl.
      split; [|done]. intros _. right. left. exists body. split; [done|by right].
    + destruct (Hty body (m :: ms) eq_refl Hm) as [turns Hturns].
      assert (Hne : turns <> []) by (by destruct turns).
      rewrite Hturns in Hm. rewrite (POST_turns apiKey body turns model Hk Hm Hne).
      assert (Hiff : no_user_content turns <->
                     ∀ t, final_user_turn turns = Some t -> truthy (trim (turn_content t)) = false).
      { unfold no_user_content. destruct (final_user_turn turns) as [t|]; [|done].
        split.
        - intros Hb t' [= <-]. apply truthy_false. by apply trim_blank.
        - intros H. apply trim_nil_blank, truthy_false. by apply H. }
      split.
      * intros Hst. right. right. exists body, turns. repeat split; try done.
        apply Hiff. intros t Ht. rewrite Ht in Hst.
        destruct (truthy (trim (turn_content t))); [|done].
        destruct (model (call_for turns t)) as [reply|err]; [|done].
        by destruct (truthy (trim (default [] reply))).
      * intros [|[(body' & [= <-] & [H|H])|(body' & turns' & [= <-] & Hm' & _ & Hno)]];
          [done|congruence|congruence|].
        assert (turns' = turns) as ->.
        { rewrite Hm in Hm'. injection Hm' as Hm'. clear -Hm'.
          revert turns' Hm'. induction turns as [|[r c] turns IH]; intros [|[r' c'] turns'];
            simpl; intros H; try done.
          injection H as -> -> H. f_equal. by apply IH. }
        destruct (final_user_turn turns) as [t|] eqn:Ht; [|done].
        by rewrite (proj1 Hiff Hno t eq_refl).
    + unfold POST, POST_try. rewrite (configured_truthy apiKey Hk), Hm. simpl.
      split; [|done]. intros _. right. left. exists body. split; [done|by left].
  - unfold POST, POST_try. by rewrite (configured_truthy apiKey Hk).
  - intros turns.
    rewrite (POST_turns apiKey _ (turns ++ [turn_blank]) model Hk
               (messages_of_request _)) by (by destruct turns).
    by rewrite final_user_turn_snoc.
Qed.

Lemma relay_rejects_bad_input_witness :
  configured sample_key /\ typed (Some (request_of [turn_assistant; turn_blank]))
  /\ POST sample_key (Some (request_of ([turn_assistant] ++ [turn_blank]))) echo_model
     = (json_response 400 (ErrorBody (str "No user message content.")), []).
Proof.
  assert (Hk : configured sample_key) by reflexivity.
  assert (Hty : typed (Some (request_of [turn_assistant; turn_blank]))).
  { intros body items [= <-] Hm. rewrite messages_of_request in Hm.
    injection Hm as <-. by exists [turn_assistant; turn_blank]. }
  split; [exact Hk|]. split; [exact Hty|].
  exact (proj2 (proj2 (relay_rejects_bad_input sample_key _ echo_model Hk Hty))
           [turn_assistant]).
Defined.

(** C4 as stated fails without the credential: [{messages: []}] gets the
    500 configuration error, not a 400. *)
Lemma relay_unconfigured_empty_messages :
  (POST None (Some (request_of [])) echo_model).1
  = json_response 500 (ErrorBody (str "GEMINI_API_KEY is not configured."))
  /\ status (POST None (Some (request_of [])) echo_model).1 <> 400%Z.
Proof. split; [reflexivity|discriminate]. Qed.

(** C9 (amended). With the service credential configured, a non-empty
    list of typed turns none of which has role ["user"] gets 400 "No user
    message content." and the hosted model is not called. *)
Theorem relay_no_user_turn apiKey body turns model :
  configured apiKey -> messages_of body = Some (map encode turns) ->
  turns <> [] -> Forall (fun t => ¬ is_user_turn t) turns ->
  POST apiKey (Some body) model
  = (json_response 400 (ErrorBody (str "No user message content.")), []).
Proof.
  intros Hk Hm Hne Hno. rewrite (POST_turns apiKey body turns model Hk Hm Hne).
  by rewrite (final_user_turn_none turns Hno).
Qed.

Lemma relay_no_user_turn_witness :
  configured sample_key /\ [turn_assistant] <> []
  /\ Forall (fun t => ¬ is_user_turn t) [turn_assistant]
  /\ POST sample_key (Some (request_of [turn_assistant])) echo_model
     = (json_response 400 (ErrorBody (str "No user message content.")), []).
Proof.
  assert (Hk : configured sample_key) by reflexivity.
  assert (Hne : [turn_assistant] <> []) by discriminate.
  assert (Hno : Forall (fun t => ¬ is_user_turn t) [turn_assistant]).
  { constructor; [|constructor]. vm_compute. discriminate. }
  split; [exact Hk|]. split; [exact Hne|]. split; [exact Hno|].
  exact (relay_no_user_turn sample_key (request_of [turn_assistant]) [turn_assistant]
           echo_model Hk eq_refl Hne Hno).
Defined.

(** C9 as stated fails without the credential: the answer is the 500
    configuration error. *)
Lemma relay_unconfigured_no_user_turn :
  POST None (Some (request_of [turn_assistant])) echo_model
  = (json_response 500 (ErrorBody (str "GEMINI_API_KEY is not configured.")), [])
  /\ status (POST None (Some (request_of [turn_assistant])) echo_model).1 <> 400%Z.
Proof. split; [reflexivity|discriminate]. Qed.





End relay.

(** ** Binary64 arithmetic *)

Section binary64.
Local Open Scope Z_scope.

Lemma ltb_compare x y :
  PrimFloat.ltb x y = match fcompare x y with Some Lt => true | _ => false end.
Proof. by rewrite FloatAxioms.ltb_spec. Qed.

Lemma SFcompare_refl a : a <> S754_nan -> SFcompare a a = Some Eq.
Proof.
  destruct a as [[|]|[|]| |[|] m e]; simpl; try done;
    by rewrite Z.compare_refl, Pos.compare_cont_refl.
Qed.

Lemma is_nan_spec x :
  PrimFloat.is_nan x = match Prim2SF x with S754_nan => true | _ => false end.
Proof.
  unfold PrimFloat.is_nan. rewrite FloatAxioms.eqb_spec. unfold SFeqb.
  destruct (Prim2SF x) as [s|s| |s m e] eqn:E; [| |done|];
    by rewrite SFcompare_refl.
Qed.

Lemma SFcompare_antisym a b : SFcompare b a = CompOpp <$> SFcompare a b.
Proof.
  destruct a as [[|]|[|]| |[|] m e], b as [[|]|[|]| |[|] m' e']; simpl; try done;
    change (Pos.compare_cont Eq m' m) with (Pos.compare m' m);
    change (Pos.compare_cont Eq m m') with (Pos.compare m m');
    rewrite (Pos.compare_antisym m m'), (Z.compare_antisym e e');
    by destruct (e ?= e')%Z, (m ?= m')%positive.
Qed.

Lemma SFcompare_eq_finite a s m e :
  SFcompare a (S754_finite s m e) = Some Eq -> a = S754_finite s m e.
Proof.
  destruct a as [[|]|[|]| |[|] m' e'], s; simpl; try done;
    change (Pos.compare_cont Eq m' m) with (Pos.compare m' m);
    destruct (Z.compare_spec e' e) as [He|He|He]; try done;
    destruct (Pos.compare_spec m' m) as [Hm|Hm|Hm]; try done; congruence.
Qed.

Lemma ltb_of_compare x y c :
  fcompare x y = Some c ->
  PrimFloat.ltb x y = match c with Lt => true | _ => false end
  /\ PrimFloat.ltb y x = match c with Gt => true | _ => false end.
Proof.
  intros H. rewrite !ltb_compare. unfold fcompare in *.
  rewrite (SFcompare_antisym (Prim2SF x) (Prim2SF y)), H. by destruct c.
Qed.

Lemma is_nan_of_compare x y c : fcompare x y = Some c -> PrimFloat.is_nan x = false.
Proof.
  unfold fcompare. rewrite is_nan_spec. by destruct (Prim2SF x).
Qed.

Lemma fcompare_eq x y :
  fcompare x y = Some Eq -> (exists s m e, Prim2SF y = S754_finite s m e) -> x = y.
Proof.
  unfold fcompare. intros H (s & m & e & Hy). rewrite Hy in H.
  apply SFcompare_eq_finite in H. apply Prim2SF_inj. congruence.
Qed.

(** Where a number stands with respect to 5 and to 15. *)
Lemma compare_5_15 t :
  t = PrimFloat.nan \/ t = 5%float \/ t = 15%float
  \/ (fcompare t 5 = Some Lt /\ fcompare t 15 = Some Lt)
  \/ (fcompare t 5 = Some Gt /\ fcompare t 15 = Some Lt)
  \/ (fcompare t 5 = Some Gt /\ fcompare t 15 = Some Gt).
Proof.
  destruct (fcompare t 5) as [[| |]|] eqn:H5.
  - right. left. apply fcompare_eq; [done|]. by repeat eexists.
  - do 3 right. left. split; [done|]. revert H5. unfold fcompare.
    change (Prim2SF 5) with (S754_finite false 5629499534213120 (-50)).
    change (Prim2SF 15) with (S754_finite false 8444249301319680 (-49)).
    destruct (Prim2SF t) as [[|]|[|]| |[|] m e]; cbn [SFcompare]; try done.
    destruct (Z.compare_spec e (-50)), (Z.compare_spec e (-49)); try done; lia.
  - destruct (fcompare t 15) as [[| |]|] eqn:H15.
    + right. right. left. apply fcompare_eq; [done|]. by repeat eexists.
    + do 4 right. by left.
    + do 5 right. done.
    + exfalso. revert H5 H15. unfold fcompare.
      by destruct (Prim2SF t) as [[|]|[|]| |[|] m e].
  - left. apply Prim2SF_inj. revert H5. unfold fcompare.
    change (Prim2SF PrimFloat.nan) with S754_nan.
    by destruct (Prim2SF t) as [[|]|[|]| |[|] m e].
Qed.

Lemma Math_clamp t : Math_max 5 (Math_min 15 t) = clamp t 5 15.
Proof.
  destruct (compare_5_15 t) as [->|[->|[->|[[H5 H15]|[[H5 H15]|[H5 H15]]]]]];
    try reflexivity.
  - destruct (ltb_of_compare t 5 _ H5) as [E1 E2].
    destruct (ltb_of_compare t 15 _ H15) as [E3 E4].
    pose proof (is_nan_of_compare t 5 _ H5) as En.
    unfold Math_max, Math_min, clamp.
    change (PrimFloat.is_nan 15) with false. rewrite En, E4, E3. simpl.
    change (PrimFloat.is_nan 5) with false. by rewrite ?En, ?E2, ?E1.
  - destruct (ltb_of_compare t 5 _ H5) as [E1 E2].
    destruct (ltb_of_compare t 15 _ H15) as [E3 E4].
    pose proof (is_nan_of_compare t 5 _ H5) as En.
    unfold Math_max, Math_min, clamp.
    change (PrimFloat.is_nan 15) with false. rewrite En, E4, E3. simpl.
    change (PrimFloat.is_nan 5) with false. by rewrite ?En, ?E2, ?E1, ?E4.
  - destruct (ltb_of_compare t 5 _ H5) as [E1 E2].
    destruct (ltb_of_compare t 15 _ H15) as [E3 E4].
    pose proof (is_nan_of_compare t 5 _ H5) as En.
    unfold Math_max, Math_min, clamp.
    change (PrimFloat.is_nan 15) with false. rewrite En, E4. simpl.
    by rewrite ?E1, ?E4.
Qed.

Lemma SFmul_comm a b : SFmul prec emax a b = SFmul prec emax b a.
Proof.
  destruct a as [[|]|[|]| |sa ma ea], b as [[|]|[|]| |sb mb eb]; simpl; try done;
    try (by destruct sa); try (by destruct sb).
  by rewrite xorb_comm, Pos.mul_comm, Z.add_comm.
Qed.

Lemma mul_comm (x y : float) : PrimFloat.mul x y = PrimFloat.mul y x.
Proof. apply Prim2SF_inj. rewrite !mul_spec. apply SFmul_comm. Qed.

Lemma bpow_add a b : bpow (a + b) = (bpow a * bpow b)%R.
Proof. apply powerRZ_add. lra. Qed.

Lemma bpow_pos e : (0 < bpow e)%R.
Proof. apply powerRZ_lt. lra. Qed.

Lemma bpow_Z e : 0 <= e -> bpow e = IZR (2 ^ e).
Proof.
  intros He. destruct e as [|p|p]; [done| |lia].
  unfold bpow. by rewrite <- Zpower_pos_powerRZ.
Qed.

Lemma bpow_ge_1 e : 0 <= e -> (1 <= bpow e)%R.
Proof.
  intros He. rewrite bpow_Z by done. apply IZR_le.
  pose proof (Z.pow_pos_nonneg 2 e). lia.
Qed.

Lemma bpow_le a b : a <= b -> (bpow a <= bpow b)%R.
Proof.
  intros H. replace b with (a + (b - a)) by lia. rewrite bpow_add.
  pose proof (bpow_pos a). pose proof (bpow_ge_1 (b - a) ltac:(lia)). nra.
Qed.

Lemma bpow_succ e : bpow (e + 1) = (2 * bpow e)%R.
Proof. rewrite bpow_add. change (bpow 1) with (2 * 1)%R. lra. Qed.

(** digits *)
Lemma digits2_pos_bounds (p : positive) :
  (2 ^ (Zpos (digits2_pos p) - 1) <= Zpos p < 2 ^ Zpos (digits2_pos p)).
Proof.
  induction p as [p IH|p IH|]; simpl digits2_pos; [| |simpl; lia].
  - rewrite Pos2Z.inj_succ.
    replace (Z.succ (Z.pos (digits2_pos p)) - 1) with (Z.succ (Z.pos (digits2_pos p) - 1)) by lia.
    rewrite !Z.pow_succ_r by lia. lia.
  - rewrite Pos2Z.inj_succ.
    replace (Z.succ (Z.pos (digits2_pos p)) - 1) with (Z.succ (Z.pos (digits2_pos p) - 1)) by lia.
    rewrite !Z.pow_succ_r by lia. lia.
Qed.

(** shifting right *)
Lemma shr_1_m mrs : (0 <= shr_m mrs) -> shr_m (shr_1 mrs) = (shr_m mrs / 2).
Proof.
  destruct mrs as [m r s]. simpl. intros Hm.
  destruct m as [|[p|p|]|p]; simpl; try done; try lia.
  - rewrite Pos2Z.inj_xI. apply Z.div_unique with 1; lia.
  - rewrite Pos2Z.inj_xO. apply Z.div_unique with 0; lia.
Qed.

Lemma iter_pos_shr_1_m (n : positive) : forall mrs,
  (0 <= shr_m mrs) ->
  shr_m (SpecFloat.iter_pos shr_1 n mrs) = (shr_m mrs / 2 ^ Zpos n).
Proof.
  assert (Hp : forall k, (0 < 2 ^ Zpos k)) by (intros; apply Z.pow_pos_nonneg; lia).
  induction n as [n IH|n IH|]; intros mrs Hm; simpl SpecFloat.iter_pos.
  - assert (H1 : (0 <= shr_m (shr_1 mrs))).
    { rewrite shr_1_m by done. apply Z.div_pos; lia. }
    assert (H2 : (0 <= shr_m (SpecFloat.iter_pos shr_1 n (shr_1 mrs)))).
    { rewrite IH by done. apply Z.div_pos; [done|apply Hp]. }
    rewrite IH, IH, shr_1_m by done. specialize (Hp n).
    rewrite !Z.div_div by lia. f_equal.
    replace (Z.pos n~1) with (1 + Z.pos n + Z.pos n) by lia.
    rewrite !Z.pow_add_r by lia. change (2 ^ 1) with 2. lia.
  - assert (H2 : (0 <= shr_m (SpecFloat.iter_pos shr_1 n mrs))).
    { rewrite IH by done. apply Z.div_pos; [done|apply Hp]. }
    rewrite IH, IH by done. specialize (Hp n).
    rewrite !Z.div_div by lia. f_equal.
    replace (Z.pos n~0) with (Z.pos n + Z.pos n) by lia.
    rewrite !Z.pow_add_r by lia. lia.
  - rewrite shr_1_m by done. done.
Qed.

Lemma fexp_eq x : fexp prec emax x = Z.max (x - 53) (-1074).
Proof. reflexivity. Qed.

Lemma Zdigits2_bounds m : (0 < m) -> (2 ^ (Zdigits2 m - 1) <= m < 2 ^ Zdigits2 m).
Proof. destruct m as [|p|p]; try lia. intros _. apply digits2_pos_bounds. Qed.

Lemma Zdigits2_pos m : (0 < m) -> (0 < Zdigits2 m).
Proof. destruct m; simpl; lia. Qed.

Lemma fval_shift m e n : (0 <= n) -> fval (m * 2 ^ n) e = fval m (e + n).
Proof.
  intros Hn. unfold fval. rewrite mult_IZR, <- bpow_Z, Z.add_comm, bpow_add by done. lra.
Qed.

(** The first shift of a rounding truncates: the result is the largest
    multiple of the new unit below the value, it has at most 53 digits,
    and it has exactly 53 when the exponent is above the minimum and a
    shift took place. *)
Lemma shr_fexp_truncates m e l :
  (0 < m) ->
  let m1 := shr_m (shr_fexp prec emax m e l).1 in
  let e1 := (shr_fexp prec emax m e l).2 in
  (0 <= m1 < 2 ^ 53) /\ (-1074 <= e1) /\ (e <= e1)
  /\ (m1 * 2 ^ (e1 - e) <= m < (m1 + 1) * 2 ^ (e1 - e))
  /\ (e < e1 -> -1074 < e1 -> 2 ^ 52 <= m1).
Proof.
  intros Hm. unfold shr_fexp, shr. rewrite fexp_eq.
  pose proof (Zdigits2_bounds m Hm) as [Hd1 Hd2].
  pose proof (Zdigits2_pos m Hm) as Hd0.
  set (d := Zdigits2 m) in *.
  destruct (Z.max (d + e - 53) (-1074) - e) as [|n|n] eqn:Hn; cbn [fst snd].
  - assert (shr_m (shr_record_of_loc m l) = m) as -> by (by destruct l as [|[| |]]).
    replace (e - e) with 0 by lia. rewrite Z.mul_1_r.
    assert (2 ^ d <= 2 ^ 53) by (apply Z.pow_le_mono_r; lia). lia.
  - assert (Hs : shr_m (shr_record_of_loc m l) = m) by (by destruct l as [|[| |]]).
    rewrite iter_pos_shr_1_m by (rewrite Hs; lia). rewrite Hs.
    replace (e + Z.pos n - e) with (Z.pos n) by lia.
    assert (Hp : (0 < 2 ^ Z.pos n)) by (apply Z.pow_pos_nonneg; lia).
    pose proof (Z.div_mod m (2 ^ Z.pos n) ltac:(lia)) as Hdm.
    pose proof (Z.mod_pos_bound m (2 ^ Z.pos n) Hp) as Hmod.
    assert (Hq : (0 <= m / 2 ^ Z.pos n)) by (apply Z.div_pos; lia).
    set (q := (m / 2 ^ Z.pos n)) in *.
    assert (Hlt : (q < 2 ^ 53)).
    { apply Z.nle_gt. intros Hge.
      assert (2 ^ 53 * 2 ^ Z.pos n <= m) by nia.
      rewrite <- Z.pow_add_r in H by lia.
      assert (2 ^ d <= 2 ^ (53 + Z.pos n)) by (apply Z.pow_le_mono_r; lia). lia. }
    repeat split; try lia.
    intros _ He1. assert (Z.pos n = d - 53) as Hnd by lia.
    apply Z.nlt_ge. intros Hlt2.
    assert (m < 2 ^ 52 * 2 ^ Z.pos n) by nia.
    rewrite <- Z.pow_add_r in H by lia.
    replace (52 + Z.pos n) with (d - 1) in H by lia. lia.
  - assert (shr_m (shr_record_of_loc m l) = m) as -> by (by destruct l as [|[| |]]).
    replace (e - e) with 0 by lia. rewrite Z.mul_1_r.
    assert (2 ^ d <= 2 ^ 53) by (apply Z.pow_le_mono_r; lia). lia.
Qed.

Lemma round_nearest_even_bounds m l :
  (m <= round_nearest_even m l <= m + 1).
Proof. destruct l as [|[| |]]; simpl; try lia. destruct (Z.even m); lia. Qed.

(** The second shift of a rounding only renormalises a carry. *)
Lemma shr_fexp_carry m e :
  (0 <= m <= 2 ^ 53) -> (-1074 <= e) ->
  let m3 := shr_m (shr_fexp prec emax m e loc_Exact).1 in
  let e3 := (shr_fexp prec emax m e loc_Exact).2 in
  (e <= e3) /\ (m = m3 * 2 ^ (e3 - e)).
Proof.
  intros Hm He. unfold shr_fexp, shr. rewrite fexp_eq.
  destruct (Z.eq_dec m 0) as [->|Hm0].
  { simpl Zdigits2. destruct (Z.max (0 + e - 53) (-1074) - e) eqn:Hn; try lia;
      cbn [fst snd shr_record_of_loc shr_m]; split; try lia. }
  pose proof (Zdigits2_bounds m ltac:(lia)) as [Hd1 Hd2].
  pose proof (Zdigits2_pos m ltac:(lia)) as Hd0.
  set (d := Zdigits2 m) in *.
  assert (Hd : (d <= 54)).
  { apply Z.nlt_ge. intros Hgt.
    assert (2 ^ 54 <= 2 ^ (d - 1)) by (apply Z.pow_le_mono_r; lia). lia. }
  destruct (Z.max (d + e - 53) (-1074) - e) as [|n|n] eqn:Hn; cbn [fst snd shr_record_of_loc shr_m].
  - replace (e - e) with 0 by lia. lia.
  - assert (Z.pos n = 1 /\ d = 54) as [Hn1 Hd54] by lia.
    assert (m = 2 ^ 53) as -> by (rewrite Hd54 in Hd1; simpl in Hd1; lia).
    rewrite iter_pos_shr_1_m by (simpl; lia). cbn [shr_m].
    replace (e + Z.pos n - e) with 1 by lia. rewrite Hn1. split; [lia|].
    reflexivity.
  - replace (e - e) with 0 by lia. lia.
Qed.

Lemma fval_le_m a b e : a <= b -> (fval a e <= fval b e)%R.
Proof.
  intros H. unfold fval. apply IZR_le in H. pose proof (bpow_pos e). nra.
Qed.

Lemma fval_lt_m a b e : a < b -> (fval a e < fval b e)%R.
Proof.
  intros H. unfold fval. apply IZR_lt in H. pose proof (bpow_pos e). nra.
Qed.

Lemma fval_lt_inv a b e : (fval a e < fval b e)%R -> a < b.
Proof.
  intros H. apply Z.nle_gt. intros Hle. apply (fval_le_m _ _ e) in Hle. lra.
Qed.

Lemma fval_le_inv a b e : (fval a e <= fval b e)%R -> a <= b.
Proof.
  intros H. apply Z.nlt_ge. intros Hlt. apply (fval_lt_m _ _ e) in Hlt. lra.
Qed.

Lemma fval_le_e m e e' : 0 <= m -> e <= e' -> (fval m e <= fval m e')%R.
Proof.
  intros Hm He. unfold fval. apply IZR_le in Hm. pose proof (bpow_le e e' He).
  pose proof (bpow_pos e). nra.
Qed.

Lemma fval_pos m e : 0 < m -> (0 < fval m e)%R.
Proof. intros H. unfold fval. apply IZR_lt in H. pose proof (bpow_pos e). nra. Qed.

Lemma fval_shift' m e e' : e <= e' -> fval (m * 2 ^ (e' - e)) e = fval m e'.
Proof. intros H. rewrite fval_shift by lia. f_equal. lia. Qed.

(** Rounding to nearest never goes below a representable number that is
    below the value rounded. *)
Lemma binary_round_aux_ge mx ex lx B eb :
  0 < mx -> 0 < B < 2 ^ 53 -> -1074 <= eb ->
  (fval B eb <= fval mx ex)%R ->
  match binary_round_aux prec emax false mx ex lx with
  | S754_finite false m e => (fval B eb <= fval (Zpos m) e)%R
  | S754_infinity false => True
  | _ => False
  end.
Proof.
  intros Hmx HB Heb Hle. unfold binary_round_aux.
  pose proof (shr_fexp_truncates mx ex lx Hmx) as (Hm1 & He1 & Hee & Htr & Hnorm).
  destruct (shr_fexp prec emax mx ex lx) as [mrs1 e1]. cbn [fst snd] in *.
  set (m1 := shr_m mrs1) in *.
  assert (Hkey : (fval B eb <= fval m1 e1)%R).
  { destruct (Z.eq_dec e1 ex) as [->|Hne].
    { replace (ex - ex) with 0 in Htr by lia. assert (m1 = mx) as -> by lia. done. }
    assert (Hlt : (fval mx ex < fval (m1 + 1) e1)%R).
    { rewrite <- (fval_shift' (m1 + 1) ex e1) by lia. apply fval_lt_m. lia. }
    destruct (Z_le_gt_dec e1 eb) as [Hc|Hc].
    - rewrite <- (fval_shift' B e1 eb) by lia. apply fval_le_m.
      assert (B * 2 ^ (eb - e1) < m1 + 1); [|lia].
      apply (fval_lt_inv _ _ e1). rewrite fval_shift' by lia. lra.
    - specialize (Hnorm ltac:(lia) ltac:(lia)).
      apply Rle_trans with (fval (2 ^ 52) e1); [|by apply fval_le_m].
      replace e1 with ((e1 - 1) + 1) at 1 by lia. rewrite <- fval_shift by lia.
      change (2 ^ 52 * 2 ^ 1) with (2 ^ 53).
      apply Rle_trans with (fval (2 ^ 53) eb); [apply fval_le_m; lia|].
      apply fval_le_e; lia. }
  pose proof (round_nearest_even_bounds m1 (loc_of_shr_record mrs1)) as Hrne.
  set (m2 := round_nearest_even m1 (loc_of_shr_record mrs1)) in *.
  pose proof (shr_fexp_carry m2 e1 ltac:(lia) He1) as [He3 Hm3].
  destruct (shr_fexp prec emax m2 e1 loc_Exact) as [mrs3 e3]. cbn [fst snd] in *.
  set (m3 := shr_m mrs3) in *.
  assert (Hval : (fval B eb <= fval m3 e3)%R).
  { rewrite <- (fval_shift' m3 e1 e3) by lia. rewrite <- Hm3.
    apply Rle_trans with (fval m1 e1); [done|apply fval_le_m; lia]. }
  pose proof (fval_pos B eb ltac:(lia)) as HBpos.
  destruct m3 as [|p|p].
  - unfold fval in *. simpl in Hval. lra.
  - by destruct (e3 <=? emax - prec).
  - assert (fval (Z.neg p) e3 <= fval 0 e3)%R by (apply fval_le_m; lia).
    unfold fval in *. simpl in H. lra.
Qed.

Lemma Pos_iter_xO m d : Z.pos (Pos.iter xO m d) = Z.pos m * 2 ^ Z.pos d.
Proof.
  induction d as [|d IH] using Pos.peano_ind.
  - simpl. lia.
  - rewrite Pos.iter_succ, Pos2Z.inj_xO, IH, Pos2Z.inj_succ, Z.pow_succ_r by lia. lia.
Qed.

(** Aligning a mantissa to a lower exponent keeps the value. *)
Lemma shl_align_value mx ex ex' :
  fval (Z.pos (shl_align mx ex ex').1) (shl_align mx ex ex').2 = fval (Z.pos mx) ex.
Proof.
  unfold shl_align. destruct (ex' - ex) as [|d|d] eqn:Hd; cbn [fst snd]; try done.
  rewrite Pos_iter_xO. rewrite fval_shift by lia. f_equal. lia.
Qed.

Lemma shl_align_fst mx ex ex' :
  ex' <= ex -> Z.pos (shl_align mx ex ex').1 = Z.pos mx * 2 ^ (ex - ex').
Proof.
  intros H. unfold shl_align. destruct (ex' - ex) as [|d|d] eqn:Hd; cbn [fst]; try lia.
  - replace (ex - ex') with 0 by lia. lia.
  - rewrite Pos_iter_xO. f_equal. f_equal. lia.
Qed.

Lemma binary_round_ge mx ex B eb :
  0 < B < 2 ^ 53 -> -1074 <= eb ->
  (fval B eb <= fval (Z.pos mx) ex)%R ->
  match binary_round prec emax false mx ex with
  | S754_finite false m e => (fval B eb <= fval (Zpos m) e)%R
  | S754_infinity false => True
  | _ => False
  end.
Proof.
  intros HB Heb Hle. unfold binary_round.
  pose proof (shl_align_value mx ex (fexp prec emax (Z.pos (digits2_pos mx) + ex))) as Hv.
  destruct (shl_align mx ex _) as [mz ez]. cbn [fst snd] in Hv.
  apply binary_round_aux_ge; try done. by rewrite Hv.
Qed.

Lemma binary_normalize_ge m e B eb :
  0 < B < 2 ^ 53 -> -1074 <= eb -> (fval B eb <= fval m e)%R ->
  at_least B eb (binary_normalize prec emax m e false).
Proof.
  intros HB Heb Hle. destruct m as [|p|p]; simpl.
  - pose proof (fval_pos B eb ltac:(lia)). unfold fval in *. simpl in Hle. lra.
  - by apply binary_round_ge.
  - pose proof (fval_pos B eb ltac:(lia)).
    assert (fval (Z.neg p) e <= fval 0 e)%R by (apply fval_le_m; lia).
    unfold fval in *. simpl in H0. lra.
Qed.

(** Order of valid positive numbers against a normal one. *)
Lemma SFcompare_ge m e B eb :
  SpecFloat.bounded prec emax m e = true -> 2 ^ 52 <= Z.pos B ->
  (fval (Z.pos B) eb <= fval (Z.pos m) e)%R ->
  SFcompare (S754_finite false m e) (S754_finite false B eb) = Some Eq
  \/ SFcompare (S754_finite false m e) (S754_finite false B eb) = Some Gt.
Proof.
  intros Hb HB Hle. simpl.
  assert (Hm : Z.pos m < 2 ^ 53).
  { unfold SpecFloat.bounded, canonical_mantissa in Hb. apply andb_true_iff in Hb as [Hc _].
    apply Z.eqb_eq in Hc. rewrite fexp_eq in Hc.
    pose proof (digits2_pos_bounds m) as [_ Hd].
    assert (2 ^ Z.pos (digits2_pos m) <= 2 ^ 53) by (apply Z.pow_le_mono_r; lia). lia. }
  destruct (Z.compare_spec e eb) as [->|Hlt|Hgt]; [|exfalso|by right].
  - apply fval_le_inv in Hle.
    change (Pos.compare_cont Eq m B) with (Pos.compare m B).
    destruct (Pos.compare_spec m B); [by left|lia|by right].
  - assert (fval (Z.pos m) e < fval (2 ^ 53) e)%R by (by apply fval_lt_m).
    assert (fval (2 ^ 53) e <= fval (2 ^ 53) (eb - 1))%R by (apply fval_le_e; lia).
    assert (fval (2 ^ 53) (eb - 1) = fval (2 ^ 52) eb).
    { change (2 ^ 53) with (2 ^ 52 * 2 ^ 1). rewrite fval_shift by lia. f_equal. lia. }
    assert (fval (2 ^ 52) eb <= fval (Z.pos B) eb)%R by (by apply fval_le_m).
    lra.
Qed.

Lemma bpow_neg k : 0 <= k -> (bpow (- k) * IZR (2 ^ k) = 1)%R.
Proof.
  intros Hk. rewrite <- bpow_Z, <- bpow_add by done.
  replace (- k + k) with 0 by lia. done.
Qed.

Lemma fval_int n : fval n 0 = IZR n.
Proof. unfold fval. change (bpow 0) with 1%R. lra. Qed.

Lemma fval_c_bounds : (0 < fval (Z.pos mant_c) (-51) <= 334 / 100)%R.
Proof.
  unfold fval. pose proof (bpow_neg 51 ltac:(lia)) as H. pose proof (bpow_pos (-51)).
  change (- (51)) with (-51) in H.
  change (IZR (2 ^ 51)) with 2251799813685248%R in H.
  change (IZR (Z.pos mant_c)) with 7505999378950827%R. lra.
Qed.

Lemma bpow_54_c : (bpow (-54) * fval (Z.pos mant_c) (-51) <= 1 / 1000)%R.
Proof.
  pose proof fval_c_bounds. pose proof (bpow_neg 54 ltac:(lia)) as H54.
  pose proof (bpow_pos (-54)).
  change (- (54)) with (-54) in H54.
  change (IZR (2 ^ 54)) with 18014398509481984%R in H54.
  assert (bpow (-54) <= 1 / 10000)%R by lra. nra.
Qed.

(** Dividing a number that is at least 37 by [200 / 60] gives at least 11. *)
Lemma SFdiv_c_ge x :
  at_least 37 0 x ->
  at_least 11 0 (SFdiv prec emax x (S754_finite false mant_c (-51))).
Proof.
  destruct x as [s|[|]| |[|] m1 e1]; simpl at_least; try done.
  intros HX. rewrite fval_int in HX. cbn [SFdiv xorb].
  unfold SFdiv_core_binary.
  change (Zdigits2 (Z.pos mant_c)) with 53. rewrite fexp_eq.
  pose proof (Zdigits2_bounds (Z.pos m1) ltac:(lia)) as [Hd1 _].
  pose proof (Zdigits2_pos (Z.pos m1) ltac:(lia)) as Hd0.
  set (d1 := Zdigits2 (Z.pos m1)) in *.
  set (e' := Z.min (Z.max (d1 + e1 - (53 + -51) - 53) (-1074)) (e1 - -51)).
  set (s := e1 - -51 - e').
  assert (Hs : 0 <= s) by lia.
  set (m' := match s with Z.pos _ => Z.shiftl (Z.pos m1) s | 0 => Z.pos m1 | Z.neg _ => 0 end).
  assert (Hm' : m' = Z.pos m1 * 2 ^ s).
  { unfold m'. destruct s as [|p|p] eqn:Es; [lia| |lia]. by rewrite Z.shiftl_mul_pow2. }
  pose proof (Z_div_mod m' (Z.pos mant_c) ltac:(lia)) as Hdiv.
  destruct (Z.div_eucl m' (Z.pos mant_c)) as [q r]. destruct Hdiv as [Hqr Hr].
  set (X := fval (Z.pos m1) e1) in *.
  set (C := fval (Z.pos mant_c) (-51)).
  set (Q := fval q e').
  assert (H1 : (X < (Q + bpow e') * C)%R).
  { assert (Hx : X = fval m' (e' + -51)).
    { rewrite Hm', fval_shift by done. unfold X. f_equal. lia. }
    assert (Hlt : (fval m' (e' + -51) < fval ((q + 1) * Z.pos mant_c) (e' + -51))%R)
      by (apply fval_lt_m; lia).
    rewrite <- Hx in Hlt. unfold fval in Hlt. rewrite mult_IZR, plus_IZR, bpow_add in Hlt.
    unfold Q, C, fval. lra. }
  assert (H2 : (bpow e' <= X * bpow (-54))%R).
  { apply Rle_trans with (bpow (Z.max (d1 + e1 - 55) (-1074))); [apply bpow_le; lia|].
    destruct (Z.max_spec (d1 + e1 - 55) (-1074)) as [[_ ->]|[_ ->]].
    - apply Rle_trans with (bpow (-54)); [apply bpow_le; lia|].
      pose proof (bpow_pos (-54)). nra.
    - replace (d1 + e1 - 55) with ((e1 + (d1 - 1)) + -54) by lia. rewrite bpow_add.
      assert (fval (2 ^ (d1 - 1)) e1 <= X)%R by (by apply fval_le_m).
      rewrite <- (Z.mul_1_l (2 ^ (d1 - 1))), fval_shift in H by lia.
      unfold fval in H. pose proof (bpow_pos (-54)). nra. }
  pose proof fval_c_bounds as HC. pose proof bpow_54_c as H54. fold C in HC, H54.
  pose proof (bpow_pos e') as Hu.
  assert (HQ : (11 <= Q)%R).
  { apply Rnot_lt_le. intros HQ.
    assert ((11 - Q) * C > 0)%R by nra.
    assert (bpow e' * C <= X * bpow (-54) * C)%R by nra.
    assert (X * (bpow (-54) * C) <= X * (1 / 1000))%R by nra.
    nra. }
  assert (Hq : 0 < q).
  { apply Z.nle_gt. intros Hq0.
    assert (Q <= fval 0 e')%R by (by apply fval_le_m). unfold fval in H. simpl in H. lra. }
  pose proof (binary_round_aux_ge q e' (new_location (Z.pos mant_c) r) 11 0 Hq) as HR.
  apply HR; [lia|lia|]. rewrite fval_int. done.
Qed.

Lemma fval_add a b e : fval (a + b) e = (fval a e + fval b e)%R.
Proof. unfold fval. rewrite plus_IZR. lra. Qed.

Lemma fval_4 : fval 4503599627370496 (-50) = 4%R.
Proof.
  change 4503599627370496 with (4 * 2 ^ 50). rewrite fval_shift by lia.
  apply (fval_int 4).
Qed.

(** Adding 4 to a number that is at least 11 gives at least 15. *)
Lemma SFadd_4_ge y :
  at_least 11 0 y ->
  at_least 15 0 (SFadd prec emax (S754_finite false 4503599627370496 (-50)) y).
Proof.
  destruct y as [s|[|]| |[|] my ey]; simpl at_least; try done.
  intros HY. rewrite fval_int in HY. cbn [SFadd cond_Zopp].
  set (ez := Z.min (-50) ey).
  apply binary_round_ge; [lia|lia|].
  rewrite fval_int, Pos2Z.inj_add, fval_add.
  rewrite !shl_align_fst by lia. rewrite !fval_shift' by lia.
  rewrite fval_4. lra.
Qed.

End binary64.

(** ** The page: the fade delay *)

Section delay.
Import Page.
Implicit Types (s cur : jsstring) (n : nat) (t : float).

Lemma truthy_reverse s : truthy (reverse s) = truthy s.
Proof.
  destruct s as [|c s]; [done|]. rewrite reverse_cons.
  by destruct (reverse s).
Qed.

(** Splitting at whitespace and dropping the empty pieces counts the
    maximal runs of non-whitespace units. *)
Lemma split_ws_from_words s : forall cur in_run,
  (in_run = true -> cur = []) ->
  length (filter (fun w => truthy w = true) (split_ws_from cur in_run s))
  = count_words (truthy cur) s + (if truthy cur then 1 else 0).
Proof.
  assert (Hcons : forall cur (l : list jsstring),
    length (filter (fun w => truthy w = true) (reverse cur :: l))
    = (if truthy cur then 1 else 0) + length (filter (fun w => truthy w = true) l)).
  { intros cur l. destruct (truthy cur) eqn:Hcur.
    - by rewrite filter_cons_True by (by rewrite truthy_reverse).
    - by rewrite filter_cons_False by (by rewrite truthy_reverse, Hcur). }
  induction s as [|c s IH]; intros cur in_run Hrun; cbn [split_ws_from count_words].
  - rewrite Hcons, filter_nil. simpl. lia.
  - destruct (is_ws c) eqn:Hc.
    + destruct in_run.
      * rewrite (Hrun eq_refl). rewrite (IH [] true) by done. simpl. lia.
      * rewrite Hcons, (IH [] true) by done. destruct (truthy cur); simpl; lia.
    + rewrite (IH (c :: cur) false) by done. simpl. destruct (truthy cur); lia.
Qed.

Lemma words_wordCount s : words s = wordCount (trim s).
Proof.
  unfold words, split_ws, wordCount. rewrite split_ws_from_words by done.
  simpl. lia.
Qed.

Lemma count_words_length s : forall b, count_words b s <= length s.
Proof.
  induction s as [|c s IH]; intros b; simpl; [done|].
  destruct (is_ws c); [specialize (IH false); lia|].
  specialize (IH true). destruct b; lia.
Qed.

Lemma trimStart_length s : length (trimStart s) <= length s.
Proof. induction s as [|c s IH]; simpl; [done|]. destruct (is_ws c); simpl; lia. Qed.

Lemma trim_length s : length (trim s) <= length s.
Proof.
  unfold trim, trimEnd. rewrite length_reverse.
  etrans; [apply trimStart_length|]. rewrite length_reverse. apply trimStart_length.
Qed.

Lemma words_length s : words s <= length s.
Proof. rewrite words_wordCount. etrans; [apply count_words_length|apply trim_length]. Qed.

(** The code's clamp and its multiplication order against the formula. *)
Lemma getAIMessageFadeDelayMs_formula s :
  getAIMessageFadeDelayMs s = delay_formula (words s).
Proof.
  unfold getAIMessageFadeDelayMs, getReadingTimeSeconds, delay_formula.
  cbv zeta. by rewrite Math_clamp, mul_comm.
Qed.

(** The number value of a count below [2^63], on its specification. *)
Lemma Number_of_nat_spec n :
  (Z.of_nat n < 2 ^ 63)%Z ->
  Prim2SF (Number_of_nat n) = binary_normalize prec emax (Z.of_nat n) 0 false.
Proof.
  intros Hn. unfold Number_of_nat. rewrite of_uint63_spec, Uint63.of_Z_spec.
  rewrite Z.mod_small; [done|]. change wB with (2 ^ 63)%Z. lia.
Qed.

(** From 37 words on, the total time is at least 15 seconds. *)
Lemma total_at_least_15 n :
  37 <= n -> (Z.of_nat n < 2 ^ 63)%Z ->
  at_least 15 0 (Prim2SF (4 + Number_of_nat n / (200 / 60))%float).
Proof.
  intros Hn Hlt. rewrite add_spec, div_spec, (Number_of_nat_spec n Hlt).
  change (Prim2SF 4) with (S754_finite false 4503599627370496 (-50)).
  change (Prim2SF (200 / 60)) with (S754_finite false mant_c (-51)).
  apply SFadd_4_ge, SFdiv_c_ge, binary_normalize_ge; [lia|lia|].
  rewrite !fval_int. apply IZR_le. lia.
Qed.

Lemma fval_15 : fval 8444249301319680 (-49) = fval 15 0.
Proof.
  change 8444249301319680%Z with (15 * 2 ^ 49)%Z. rewrite fval_shift by lia. done.
Qed.

(** A number that is at least 15 clamps to 15. *)
Lemma clamp_saturates t : at_least 15 0 (Prim2SF t) -> clamp t 5 15 = 15%float.
Proof.
  intros Ht.
  assert (Hc : fcompare t 15 = Some Eq \/ fcompare t 15 = Some Gt).
  { unfold fcompare. pose proof (Prim2SF_valid t) as Hv.
    change (Prim2SF 15) with (S754_finite false 8444249301319680 (-49)).
    destruct (Prim2SF t) as [s|[|]| |[|] m e]; simpl in Ht; try done; [by right|].
    apply SFcompare_ge; [done|lia|]. by rewrite fval_15. }
  destruct (compare_5_15 t) as [->|[->|[->|[[H5 H15]|[[H5 H15]|[H5 H15]]]]]].
  - by destruct Hc.
  - by destruct Hc.
  - reflexivity.
  - destruct Hc; congruence.
  - destruct Hc; congruence.
  - destruct (ltb_of_compare t 5 _ H5) as [E1 _].
    destruct (ltb_of_compare t 15 _ H15) as [_ E4].
    unfold clamp. by rewrite E1, E4.
Qed.

Lemma delay_formula_saturates n :
  37 <= n -> (Z.of_nat n < 2 ^ 63)%Z -> delay_formula n = 15000%float.
Proof.
  intros Hn Hlt. unfold delay_formula.
  by rewrite (clamp_saturates _ (total_at_least_15 n Hn Hlt)).
Qed.

(** Below 37 words the delays are few enough to be listed: each lies
    between 5000 and 15000 and none exceeds a later one. *)
Lemma delay_formula_table :
  forallb (fun n =>
    PrimFloat.leb 5000 (delay_formula n) && PrimFloat.leb (delay_formula n) 15000
    && forallb (fun m => PrimFloat.leb (delay_formula n) (delay_formula m))
         (seq n (37 - n)))
    (seq 0 37) = true.
Proof. vm_compute. reflexivity. Qed.

Lemma delay_formula_small n :
  n < 37 ->
  PrimFloat.leb 5000 (delay_formula n) = true
  /\ PrimFloat.leb (delay_formula n) 15000 = true
  /\ forall m, n <= m < 37 ->
       PrimFloat.leb (delay_formula n) (delay_formula m) = true.
Proof.
  intros Hn. pose proof delay_formula_table as H.
  rewrite forallb_forall in H. specialize (H n).
  rewrite !andb_true_iff, forallb_forall in H.
  destruct H as [[H1 H2] H3]; [apply in_seq; lia|].
  repeat split; try done. intros m Hm. apply H3, in_seq. lia.
Qed.

Lemma delay_formula_bounds n :
  (Z.of_nat n < 2 ^ 63)%Z ->
  PrimFloat.leb 5000 (delay_formula n) = true
  /\ PrimFloat.leb (delay_formula n) 15000 = true.
Proof.
  intros Hlt. destruct (le_lt_dec 37 n) as [Hn|Hn].
  - rewrite (delay_formula_saturates n Hn Hlt). by split.
  - destruct (delay_formula_small n Hn) as (H1 & H2 & _). by split.
Qed.

Lemma delay_formula_mono n m :
  n <= m -> (Z.of_nat m < 2 ^ 63)%Z ->
  PrimFloat.leb (delay_formula n) (delay_formula m) = true.
Proof.
  intros Hnm Hlt. destruct (le_lt_dec 37 m) as [Hm|Hm].
  - rewrite (delay_formula_saturates m Hm Hlt).
    apply delay_formula_bounds. lia.
  - destruct (delay_formula_small n ltac:(lia)) as (_ & _ & H). apply H. lia.
Qed.

(** C2. The fade delay of a content is the formula
    [1000 * clamp(4 + wordCount / (200 / 60), 5, 15)] on the number of
    whitespace-separated words of the trimmed content, every operation
    being the binary64 one the code performs.  The content of thirteen
    "hello" has 13 words and a delay of 7900 ms; 13 words give 7900 ms,
    1 word gives 5000 ms and 400 words give 15000 ms. *)
Theorem fade_delay_formula :
  (forall content,
     getAIMessageFadeDelayMs content = delay_formula (wordCount (trim content)))
  /\ wordCount (trim hello13) = 13
  /\ getAIMessageFadeDelayMs hello13 = 7900%float
  /\ delay_formula 13 = 7900%float
  /\ delay_formula 1 = 5000%float
  /\ delay_formula 400 = 15000%float.
Proof.
  split.
  - intros content. by rewrite getAIMessageFadeDelayMs_formula, words_wordCount.
  - repeat split; vm_compute; reflexivity.
Qed.

(** The formula is the binary64 one: with 9 words the quotient is not
    exactly 2.7 and the delay falls just short of 6700 ms. *)
Lemma fade_delay_rounds : delay_formula 9 = 0x1.a2bffffffffffp+12%float.
Proof. vm_compute. reflexivity. Qed.

(** C3 (amended). The fade delay is monotonic in the number of words:
    for contents of a length that a string can have (below [2^53] units),
    a content with no more words than another has no greater delay; and
    the delay of every such content lies between 5000 ms and 15000 ms
    inclusive. *)
Theorem fade_delay_monotone_in_words s1 s2 :
  (Z.of_nat (length s1) < 2 ^ 53)%Z -> (Z.of_nat (length s2) < 2 ^ 53)%Z ->
  (wordCount (trim s1) <= wordCount (trim s2) ->
     PrimFloat.leb (getAIMessageFadeDelayMs s1) (getAIMessageFadeDelayMs s2) = true)
  /\ PrimFloat.leb 5000 (getAIMessageFadeDelayMs s1) = true
  /\ PrimFloat.leb (getAIMessageFadeDelayMs s1) 15000 = true.
Proof.
  intros H1 H2. rewrite !getAIMessageFadeDelayMs_formula.
  pose proof (words_length s1). pose proof (words_length s2).
  assert (Z.of_nat (words s1) < 2 ^ 63)%Z by lia.
  assert (Z.of_nat (words s2) < 2 ^ 63)%Z by lia.
  split; [|by apply delay_formula_bounds].
  rewrite <- !words_wordCount. intros Hle. by apply delay_formula_mono.
Qed.

Lemma fade_delay_monotone_in_words_witness :
  (Z.of_nat (length one_long_word) < 2 ^ 53)%Z
  /\ (Z.of_nat (length four_words) < 2 ^ 53)%Z
  /\ wordCount (trim one_long_word) <= wordCount (trim four_words)
  /\ PrimFloat.leb (getAIMessageFadeDelayMs one_long_word)
       (getAIMessageFadeDelayMs four_words) = true.
Proof.
  assert (H1 : (Z.of_nat (length one_long_word) < 2 ^ 53)%Z) by (vm_compute; reflexivity).
  assert (H2 : (Z.of_nat (length four_words) < 2 ^ 53)%Z) by (vm_compute; reflexivity).
  assert (Hw : wordCount (trim one_long_word) <= wordCount (trim four_words))
    by (vm_compute; lia).
  split; [exact H1|]. split; [exact H2|]. split; [exact Hw|].
  exact (proj1 (fade_delay_monotone_in_words one_long_word four_words H1 H2) Hw).
Defined.

(** C3 as stated fails: a content can be shorter than another and have
    more words, hence a longer delay. *)
Lemma fade_delay_not_monotone_in_length :
  length four_words <= length one_long_word
  /\ getAIMessageFadeDelayMs four_words = 5200%float
  /\ getAIMessageFadeDelayMs one_long_word = 5000%float
  /\ PrimFloat.leb (getAIMessageFadeDelayMs four_words)
       (getAIMessageFadeDelayMs one_long_word) = false.
Proof. repeat split; vm_compute; try reflexivity. lia. Qed.

End delay.

(** ** Strings: what [trim] returns *)

Section trim.
Implicit Types (s l ws : jsstring) (c : N).

(** A string that is empty or starts with a non-whitespace unit. *)
Lemma trimStart_blank_app ws l : blank ws -> trimStart (ws ++ l) = trimStart l.
Proof. induction 1 as [|c ws Hc _ IH]; simpl; [done|]. by rewrite Hc. Qed.

Lemma trimStart_head s :
  match trimStart s with [] => True | c :: _ => is_ws c = false end.
Proof.
  induction s as [|c s IH]; simpl; [done|].
  destruct (is_ws c) eqn:Hc; [done|]. by rewrite Hc.
Qed.

Lemma trimStart_id l :
  match l with [] => True | c :: _ => is_ws c = false end -> trimStart l = l.
Proof. destruct l as [|c l]; simpl; [done|]. by intros ->. Qed.

Lemma trimStart_idemp s : trimStart (trimStart s) = trimStart s.
Proof. apply trimStart_id, trimStart_head. Qed.

Lemma trimEnd_idemp s : trimEnd (trimEnd s) = trimEnd s.
Proof. unfold trimEnd. by rewrite reverse_involutive, trimStart_idemp. Qed.

(** Trimming the end keeps a string trimmed at the start. *)
Lemma trimEnd_keeps_head l :
  match l with [] => True | c :: _ => is_ws c = false end ->
  match trimEnd l with [] => True | c :: _ => is_ws c = false end.
Proof.
  intros Hl. unfold trimEnd.
  destruct (trimStart_suffix (reverse l)) as (ws & Hrev & Hws).
  set (u := trimStart (reverse l)) in *.
  assert (Hl' : l = reverse u ++ reverse ws).
  { rewrite <- reverse_app, <- Hrev. by rewrite reverse_involutive. }
  destruct (reverse u) as [|c r] eqn:Hu; [done|].
  rewrite Hl' in Hl. apply Hl.
Qed.

Lemma trim_idemp s : trim (trim s) = trim s.
Proof.
  unfold trim at 1. rewrite (trimStart_id (trim s)).
  - unfold trim. apply trimEnd_idemp.
  - unfold trim. apply trimEnd_keeps_head, trimStart_head.
Qed.

End trim.

(** ** The relay: responses, calls and ill-typed bodies *)

Section relay_more.
Import Route.
Implicit Types (t u a : Turn) (turns prior : list Turn) (apiKey : option jsstring)
  (model : ModelCall -> ModelReply) (body : json) (items : list json).

(** Without the credential (unset or empty) every request, whatever its
    body, gets the 500 configuration error and the hosted model is not
    called. *)
Theorem relay_requires_credential apiKey request model :
  apiKey = None \/ apiKey = Some [] ->
  POST apiKey request model
  = (json_response 500 (ErrorBody (str "GEMINI_API_KEY is not configured.")), []).
Proof. by intros [-> | ->]. Qed.

Lemma relay_requires_credential_witness :
  POST (Some []) (Some (request_of [turn_padded])) echo_model
  = (json_response 500 (ErrorBody (str "GEMINI_API_KEY is not configured.")), []).
Proof.
  exact (relay_requires_credential (Some []) (Some (request_of [turn_padded]))
           echo_model (or_intror eq_refl)).
Defined.

Lemma historyMessages_length items : length (historyMessages items) <= 20.
Proof. unfold historyMessages. rewrite length_drop. lia. Qed.

Lemma map_toContent_length items hist :
  map_toContent items = Ok hist -> length hist = length items.
Proof.
  revert hist. induction items as [|m items IH]; intros hist; simpl.
  - by intros [= <-].
  - destruct (toContent m) as [c|e]; simpl; [|done].
    destruct (map_toContent items) as [cs|e]; simpl; [|done].
    intros [= <-]. simpl. f_equal. by apply IH.
Qed.

(** Every response has one of four statuses; a success carries a content
    that is trimmed and not empty, every other status carries an error
    text. *)
Theorem relay_response_shape apiKey request model :
  let response := (POST apiKey request model).1 in
  (status response = 200 \/ status response = 400
   \/ status response = 500 \/ status response = 502)%Z
  /\ match body response with
     | ContentBody c => status response = 200%Z /\ c <> [] /\ trim c = c
     | ErrorBody _ => status response <> 200%Z
     end.
Proof.
  unfold POST, POST_try.
  repeat case_match; cbv [fst status body json_response] in *; simplify_eq;
    try (split; [tauto|done]).
  split; [tauto|]. split; [done|]. split; [|apply trim_idemp].
  by apply truthy_true, negb_false_iff.
Qed.

(** A request makes at most one call to the hosted model, and none when
    it is rejected with 400; a call carries the persona, at most 20
    history entries and a trimmed, non-empty input; the statuses 200 and
    502 only arise after a call. *)
Theorem relay_calls_model_at_most_once apiKey request model :
  let response := (POST apiKey request model).1 in
  let sent := (POST apiKey request model).2 in
  length sent <= 1
  /\ (status response = 400%Z -> sent = [])
  /\ (status response = 200%Z \/ status response = 502%Z -> exists call, sent = [call])
  /\ (forall call, call ∈ sent ->
        systemInstruction call = systemPrompt
        /\ length (history call) <= 20
        /\ input call <> [] /\ trim (input call) = input call).
Proof.
  unfold POST, POST_try.
  repeat case_match; cbv [fst snd status json_response] in *; simplify_eq;
    cbn [length]; (split; [lia|]); (split; [done|]);
    (split; [try (intros [|]; done); try (intros _; by eexists)|]);
    intros call Hcall; try (by apply elem_of_nil in Hcall);
    apply list_elem_of_singleton in Hcall as ->; cbn [systemInstruction history input];
    (split; [done|]);
    (split; [erewrite map_toContent_length by done; apply historyMessages_length|]).
  all: match goal with
       | H : content_trim _ = Ok ?trimmed, H' : negb (truthy (default [] ?trimmed)) = false |- _ =>
           apply negb_false_iff, truthy_true in H'; split; [done|];
           unfold content_trim in H; repeat case_match; simplify_eq; try done;
           apply trim_idemp
       end.
Qed.



Lemma filter_user_null items : JNull ∈ items -> exists err, filter_user items = Throw err.
Proof.
  induction items as [|m items IH]; intros Hin; [by apply elem_of_nil in Hin|].
  cbn [filter_user]. destruct m; try (by eexists);
    (apply elem_of_cons in Hin as [Hin|Hin]; [done|];
     destruct (IH Hin) as [err ->]; by eexists).
Qed.

(** An entry [null] anywhere in the messages makes the handler throw
    while it looks for the user turns: the request gets a 500 and the
    hosted model is not called. *)
Theorem relay_null_entry apiKey body items model :
  configured apiKey -> messages_of body = Some items -> JNull ∈ items ->
  status (POST apiKey (Some body) model).1 = 500%Z
  /\ (POST apiKey (Some body) model).2 = [].
Proof.
  intros Hk Hm Hin. unfold POST, POST_try.
  rewrite (configured_truthy apiKey Hk), Hm.
  destruct items as [|m items]; [by apply elem_of_nil in Hin|].
  by destruct (filter_user_null (m :: items) Hin) as [err ->].
Qed.

Lemma relay_null_entry_witness :
  configured sample_key /\ JNull ∈ [encode turn_padded; JNull]
  /\ status (POST sample_key (Some body_with_null) echo_model).1 = 500%Z.
Proof.
  assert (Hk : configured sample_key) by reflexivity.
  assert (Hin : JNull ∈ [encode turn_padded; JNull]) by (right; left).
  split; [exact Hk|]. split; [exact Hin|].
  exact (proj1 (relay_null_entry sample_key body_with_null [encode turn_padded; JNull]
                  echo_model Hk eq_refl Hin)).
Defined.

Lemma filter_user_snoc_user turns (content : json) :
  filter_user (map encode turns
               ++ [JObject [(str "role", JString (str "user")); (str "content", content)]])
  = Ok (map encode (filter is_user_turn turns)
        ++ [JObject [(str "role", JString (str "user")); (str "content", content)]]).
Proof.
  induction turns as [|t turns IH]; [reflexivity|].
  cbn [map app filter_user]. rewrite role_is_user_encode, IH. cbn [bind].
  case_bool_decide; [by rewrite filter_cons_True|by rewrite filter_cons_False].
Qed.

(** When the content of the final user turn is a number, the handler
    throws on [.trim()]: the request gets a 500, not a 400, and the
    hosted model is not called. *)
Theorem relay_numeric_content apiKey body turns x model :
  configured apiKey ->
  messages_of body
  = Some (map encode turns
          ++ [JObject [(str "role", JString (str "user")); (str "content", JNumber x)]]) ->
  status (POST apiKey (Some body) model).1 = 500%Z
  /\ (POST apiKey (Some body) model).2 = [].
Proof.
  intros Hk Hm. unfold POST, POST_try.
  rewrite (configured_truthy apiKey Hk), Hm. clear Hm.
  pose proof (filter_user_snoc_user turns (JNumber x)) as Hf.
  destruct (map encode turns ++ _) as [|m0 ms] eqn:Happ; [by destruct turns|].
  rewrite Hf, last_snoc. done.
Qed.

Lemma relay_numeric_content_witness :
  configured sample_key
  /\ status (POST sample_key (Some body_numeric) echo_model).1 = 500%Z.
Proof.
  assert (Hk : configured sample_key) by reflexivity.
  split; [exact Hk|].
  exact (proj1 (relay_numeric_content sample_key body_numeric [] 5%float echo_model
                  Hk eq_refl)).
Defined.



End relay_more.

(** ** The page: the typing effect *)

Section typing.
Import Page.
Implicit Types (c : Chat) (r : FetchResult) (k : Async) (es : list Effect).

Lemma responses_app es1 es2 : responses (es1 ++ es2) = responses es1 ++ responses es2.
Proof. apply omap_app. Qed.

Lemma waited_app es1 es2 : waited (es1 ++ es2) = (waited es1 + waited es2)%Z.
Proof. induction es1 as [|[u|b|ms] es1 IH]; simpl; lia. Qed.

Lemma responses_cons e es :
  responses (e :: es)
  = match e with
    | Updated (setCurrentResponse v) => v :: responses es
    | _ => responses es
    end.
Proof. by destruct e as [[]| |]. Qed.

Lemma waited_cons e es :
  waited (e :: es) = match e with Slept ms => (ms + waited es)%Z | _ => waited es end.
Proof. by destruct e. Qed.

Lemma reveal_responses r fullText n : forall i k,
  responses (effects r (reveal fullText n i k))
  = map (fun j => take j fullText) (seq i n) ++ responses (effects r k).
Proof.
  induction n as [|n IH]; intros i k; [done|].
  cbn [reveal effects seq map app]. rewrite !responses_cons. cbv beta iota.
  unfold slice0. f_equal. apply IH.
Qed.

Lemma reveal_waited r fullText n : forall i k,
  waited (effects r (reveal fullText n i k))
  = (LETTER_DELAY_MS * Z.of_nat n + waited (effects r k))%Z.
Proof.
  induction n as [|n IH]; intros i k; [simpl; lia|].
  cbn [reveal effects]. rewrite !waited_cons. cbv beta iota. rewrite IH. lia.
Qed.

(** After a successful response the transient reply slot is cleared,
    then shows every prefix of the reply in order, from the empty one to
    the whole reply, one unit more at a time, and is cleared again once
    the reply is in the history. *)
Theorem reply_revealed_by_prefixes c r reply :
  trim (inputValue c) <> [] -> isLoading c = false -> Success r reply ->
  responses (effects r (sendMessage c))
  = [[]] ++ map (fun j => take j reply) (seq 0 (S (length reply))) ++ [[]]
  /\ last (map (fun j => take j reply) (seq 0 (S (length reply)))) = Some reply.
Proof.
  intros Ht Hl Hs. rewrite (sendMessage_submits c Ht Hl). cbv zeta.
  cbn [effects]. rewrite (afterFetch_success r reply Hs). cbn [effects].
  split.
  - rewrite !responses_cons. cbv beta iota. rewrite reveal_responses.
    cbn [effects finally_block]. by rewrite !responses_cons.
  - rewrite seq_S, map_app. cbn [map]. rewrite last_snoc.
    by rewrite Nat.add_0_l, firstn_all.
Qed.

Lemma reply_revealed_by_prefixes_witness :
  trim (inputValue chat_hi) <> [] /\ isLoading chat_hi = false
  /\ Success reply_hello (str "Hello.")
  /\ responses (effects reply_hello (sendMessage chat_hi))
     = [[]] ++ map (fun j => take j (str "Hello.")) (seq 0 (S (length (str "Hello."))))
        ++ [[]].
Proof.
  assert (Ht : trim (inputValue chat_hi) <> []) by (vm_compute; discriminate).
  assert (Hs : Success reply_hello (str "Hello.")).
  { apply (success_reply {| data_error := None; data_content := Some (str "Hello. ") |}
             (str "Hello. ")); [reflexivity|vm_compute; discriminate]. }
  split; [exact Ht|]. split; [reflexivity|]. split; [exact Hs|].
  exact (proj1 (reply_revealed_by_prefixes chat_hi reply_hello (str "Hello.")
                  Ht eq_refl Hs)).
Defined.

(** A successful call waits 2000 ms and then 25 ms per prefix shown: for
    a reply of [n] units, [2000 + 25 * (n + 1)] ms in all; a failing call
    waits for nothing but the fetch. *)
Theorem reply_waiting_time c r :
  trim (inputValue c) <> [] -> isLoading c = false ->
  (forall reply, Success r reply ->
     waited (effects r (sendMessage c)) = (2000 + 25 * (Z.of_nat (length reply) + 1))%Z)
  /\ (forall text, Failure r text -> waited (effects r (sendMessage c)) = 0%Z).
Proof.
  intros Ht Hl. rewrite (sendMessage_submits c Ht Hl). cbv zeta. split.
  - intros reply Hs. cbn [effects].
    rewrite (afterFetch_success r reply Hs). cbn [effects].
    rewrite !waited_cons. cbv beta iota. rewrite reveal_waited.
    cbn [effects finally_block]. rewrite !waited_cons. cbv beta iota.
    unfold LETTER_DELAY_MS. simpl waited. lia.
  - intros text Hf. cbn [effects]. rewrite (afterFetch_failure r text Hf).
    reflexivity.
Qed.

Lemma reply_waiting_time_witness :
  trim (inputValue chat_hi) <> [] /\ isLoading chat_hi = false
  /\ Success reply_hello (str "Hello.")
  /\ waited (effects reply_hello (sendMessage chat_hi)) = 2175%Z.
Proof.
  assert (Ht : trim (inputValue chat_hi) <> []) by (vm_compute; discriminate).
  assert (Hs : Success reply_hello (str "Hello.")).
  { apply (success_reply {| data_error := None; data_content := Some (str "Hello. ") |}
             (str "Hello. ")); [reflexivity|vm_compute; discriminate]. }
  split; [exact Ht|]. split; [reflexivity|]. split; [exact Hs|].
  exact (proj1 (reply_waiting_time chat_hi reply_hello Ht eq_refl) (str "Hello.") Hs).
Defined.

End typing.

(** ** The page: one request at a time *)

Section in_flight.
Import Page.
Implicit Types (c : Chat) (p k : Async) (st : State) (cs : list Suspended)
  (s : Suspended) (pg : Component) (ev : Event).

Lemma apply_isLoading u c :
  match u with setIsLoading _ => True | _ => isLoading (apply u c) = isLoading c end.
Proof. by destruct u. Qed.

Lemma exec_clears_loading p : forall c,
  clears_loading_last p -> isLoading c = true ->
  (unfinished (exec p c).2 = true /\ isLoading (exec p c).1 = true
   /\ suspended_clears_loading_last (exec p c).2)
  \/ ((exec p c).2 = Finished /\ isLoading (exec p c).1 = false).
Proof.
  induction p as [|u k IH|body k _|ms k _]; intros c Hp Hl; cbn [exec clears_loading_last] in *.
  - done.
  - destruct u; try (apply IH; [done|by simpl]).
    destruct Hp as [-> ->]. right. by simpl.
  - left. by simpl.
  - left. by simpl.
Qed.

Lemma catch_clears_loading err : clears_loading_last (catch_block err).
Proof. by simpl. Qed.

Lemma reveal_clears_loading fullText n : forall i k,
  clears_loading_last k -> clears_loading_last (reveal fullText n i k).
Proof. induction n as [|n IH]; intros i k Hk; cbn [reveal clears_loading_last]; [done|by apply IH]. Qed.

Lemma afterFetch_clears_loading r : clears_loading_last (afterFetch r).
Proof.
  destruct r as [err|ok json]; unfold afterFetch; [apply catch_clears_loading|].
  destruct (negb ok); [apply catch_clears_loading|].
  destruct (negb (truthy _)); [apply catch_clears_loading|].
  cbn [clears_loading_last]. apply reveal_clears_loading. by simpl.
Qed.

Lemma in_flight_app cs1 cs2 : in_flight (cs1 ++ cs2) = in_flight cs1 + in_flight cs2.
Proof. unfold in_flight. by rewrite filter_app, length_app. Qed.

Lemma in_flight_cons s cs :
  in_flight (s :: cs) = (if unfinished s then 1 else 0) + in_flight cs.
Proof.
  unfold in_flight. destruct (unfinished s) eqn:Hs.
  - by rewrite filter_cons_True.
  - rewrite filter_cons_False; [done|]. by rewrite Hs.
Qed.

Lemma in_flight_insert cs : forall i old s,
  cs !! i = Some old ->
  in_flight (<[i := s]> cs) + (if unfinished old then 1 else 0)
  = in_flight cs + (if unfinished s then 1 else 0).
Proof.
  induction cs as [|x cs IH]; intros [|i] old s Hi; simpl in Hi; try done.
  - injection Hi as ->. change (<[0:=s]> (old :: cs)) with (s :: cs).
    rewrite !in_flight_cons.
    destruct (unfinished old), (unfinished s); lia.
  - change (<[S i:=s]> (x :: cs)) with (x :: <[i:=s]> cs). rewrite !in_flight_cons.
    specialize (IH i old s Hi).
    destruct (unfinished x), (unfinished old), (unfinished s); lia.
Qed.

Lemma resume_one_at_a_time call p st cs old :
  cs !! call = Some old -> unfinished old = true -> clears_loading_last p ->
  one_at_a_time st cs ->
  one_at_a_time (resume call p st cs).1 (resume call p st cs).2.
Proof.
  intros Hcall Hold Hp [Hn Hall]. unfold resume.
  assert (Hl : isLoading (chat st) = true).
  { destruct (isLoading (chat st)); [done|].
    pose proof (in_flight_insert cs call old Finished Hcall) as H.
    rewrite Hold in H. cbn [unfinished] in H. exfalso. lia. }
  pose proof (in_flight_insert cs call old (exec p (chat st)).2 Hcall) as Hins.
  rewrite Hold, Hn, Hl in Hins.
  destruct (exec_clears_loading p (chat st) Hp Hl) as [(Hu & Hl' & Hs)|[Hf Hl']];
    destruct (exec p (chat st)) as [c s]; cbn [fst snd chat with_chat] in *.
  - rewrite Hu in Hins. unfold one_at_a_time. cbn [chat with_chat]. rewrite Hl'.
    split; [lia|by apply Forall_insert].
  - subst s. unfold one_at_a_time. cbn [chat with_chat]. rewrite Hl'.
    cbn [unfinished] in Hins. split; [lia|by apply Forall_insert].
Qed.

Lemma handle_one_at_a_time ev st cs :
  one_at_a_time st cs -> one_at_a_time (handle ev st cs).1 (handle ev st cs).2.
Proof.
  intros Hinv. destruct ev; cbn [handle]; try done.
  - by destruct (scrollFlashTimeoutRef (hints st)) as [[|]|].
  - by destruct (clickPromptTimeoutRef (hints st)) as [[|]|].
  - unfold onKeyDown.
    repeat (match goal with |- context [if ?b then _ else _] => destruct b end); done.
  - by destruct (inputRendered st).
  - destruct (inputRendered st) eqn:Hr; cbn [andb]; [|done].
    destruct (bool_decide _ && negb _); [|done].
    assert (Hl : isLoading (chat st) = false).
    { unfold inputRendered in Hr. apply andb_true_iff in Hr as [_ Hr].
      by apply negb_true_iff in Hr. }
    destruct Hinv as [Hn Hall]. rewrite Hl in Hn.
    destruct (trim (inputValue (chat st))) as [|x t] eqn:Ht.
    + rewrite (sendMessage_ignores (chat st)) by (by left).
      unfold one_at_a_time. cbn [exec fst snd chat with_chat].
      rewrite Hl. split; [rewrite in_flight_app, Hn; done|].
      apply Forall_app. split; [done|by constructor].
    + rewrite (sendMessage_submits (chat st)) by (done || by rewrite Ht).
      unfold one_at_a_time. cbn [exec fst snd chat with_chat apply isLoading].
      split; [rewrite in_flight_app, Hn; done|].
      apply Forall_app. split; [done|]. constructor; [|done].
      intros r. apply afterFetch_clears_loading.
  - destruct (cs !! call) as [[|body k|ms k]|] eqn:Hcall; try done.
    apply (resume_one_at_a_time call (k r) st cs (OnFetch body k)); try done.
    destruct Hinv as [_ Hall]. eapply Forall_lookup_1 in Hall; [|done]. apply Hall.
  - destruct (cs !! call) as [[|body k|ms k]|] eqn:Hcall; try done.
    apply (resume_one_at_a_time call k st cs (OnTimeout ms k)); try done.
    destruct Hinv as [_ Hall]. eapply Forall_lookup_1 in Hall; [|done]. apply Hall.
Qed.

Lemma run_one_at_a_time evs : one_at_a_time (state (run evs)) (calls (run evs)).
Proof.
  unfold run. induction evs as [|ev evs IH] using rev_ind; [by split|].
  rewrite foldl_app. cbn [foldl]. set (pg := foldl step initial evs) in *.
  unfold step. destruct (negb (mounted pg)); [done|].
  pose proof (handle_one_at_a_time ev (state pg) (calls pg) IH) as H.
  destruct (handle ev (state pg) (calls pg)) as [st cs]. cbn [fst snd] in H.
  destruct (fadeEffect (messages (chat st)) (fades st)) as [f started].
  by destruct ev.
Qed.

(** In every state the component can reach, at most one call of
    [sendMessage] is still running, and the loading flag is set exactly
    while one is; while it is set a key press in the input starts
    nothing. *)
Theorem one_request_in_flight evs :
  let pg := run evs in
  in_flight (calls pg) <= 1
  /\ (in_flight (calls pg) = 1 <-> isLoading (chat (state pg)) = true)
  /\ (isLoading (chat (state pg)) = true ->
        forall key shiftKey,
          handle (InputKeyDown key shiftKey) (state pg) (calls pg)
          = (state pg, calls pg)).
Proof.
  cbv zeta. destruct (run_one_at_a_time evs) as [Hn _].
  destruct (isLoading (chat (state (run evs)))) eqn:Hl; rewrite Hn.
  - split; [lia|]. split; [done|]. intros _ key shiftKey. cbn [handle].
    unfold inputRendered. rewrite Hl. by rewrite andb_false_r.
  - split; [lia|]. split; [split; [lia|done]|done].
Qed.

End in_flight.

(** ** The page: hints, key presses and teardown *)

Section handlers.
Import Page.
Implicit Types (st : State) (cs : list Suspended) (h : Hints) (pg : Component)
  (ev : Event) (container : option Rect).

Lemma showScrollFlash_last pick rx ry container h :
  lastScrollFlashTimeRef (showScrollFlash pick rx ry container h)
  = lastScrollFlashTimeRef h.
Proof. unfold showScrollFlash. by destruct container. Qed.

Lemma handle_keeps_last ev st cs :
  is_scroll ev = false ->
  lastScrollFlashTimeRef (hints (handle ev st cs).1) = lastScrollFlashTimeRef (hints st).
Proof.
  intros Hev. destruct ev; try done; cbn [handle].
  - by destruct (scrollFlashTimeoutRef (hints st)) as [[|]|].
  - unfold handleClick.
    repeat (match goal with |- context [if ?b then _ else _] => destruct b end); try done.
    by destruct container.
  - by destruct (clickPromptTimeoutRef (hints st)) as [[|]|].
  - unfold onKeyDown.
    repeat (match goal with |- context [if ?b then _ else _] => destruct b end); done.
  - by destruct (inputRendered st).
  - destruct (inputRendered st && _ && _); [|done].
    by destruct (exec (sendMessage (chat st)) (chat st)).
  - destruct (cs !! call) as [[|body k|ms k]|]; try done.
    unfold resume. by destruct (exec (k r) (chat st)).
  - destruct (cs !! call) as [[|body k|ms k]|]; try done.
    unfold resume. by destruct (exec k (chat st)).
Qed.

Lemma step_keeps_last pg ev :
  is_scroll ev = false ->
  lastScrollFlashTimeRef (hints (state (step pg ev)))
  = lastScrollFlashTimeRef (hints (state pg)).
Proof.
  intros Hev. unfold step. destruct (negb (mounted pg)); [done|].
  pose proof (handle_keeps_last ev (state pg) (calls pg) Hev) as H.
  destruct (handle ev (state pg) (calls pg)) as [st cs]. cbn [fst] in H.
  destruct (fadeEffect (messages (chat st)) (fades st)) as [f started].
  by destruct ev.
Qed.

Lemma steps_keep_last evs : forall pg,
  forallb (fun ev => negb (is_scroll ev)) evs = true ->
  lastScrollFlashTimeRef (hints (state (foldl step pg evs)))
  = lastScrollFlashTimeRef (hints (state pg)).
Proof.
  induction evs as [|ev evs IH]; intros pg Hevs; [done|].
  cbn [forallb] in Hevs. apply andb_true_iff in Hevs as [Hev Hevs].
  cbn [foldl]. rewrite IH by done. apply step_keeps_last. by apply negb_true_iff.
Qed.

(** Scroll flashes are throttled: once a scroll event at time [t1] has
    been taken, a scroll event at a time less than 450 ms later changes
    nothing, whatever other events came in between. *)
Theorem scroll_flash_throttled pg evs t1 t2 pick1 rx1 ry1 c1 pick2 rx2 ry2 c2 :
  mounted pg = true ->
  (SCROLL_FLASH_THROTTLE_MS <= t1 - lastScrollFlashTimeRef (hints (state pg)))%Z ->
  forallb (fun ev => negb (is_scroll ev)) evs = true ->
  (t2 - t1 < SCROLL_FLASH_THROTTLE_MS)%Z ->
  let later := foldl step (step pg (Scroll t1 pick1 rx1 ry1 c1)) evs in
  lastScrollFlashTimeRef (hints (state later)) = t1
  /\ hints (state (step later (Scroll t2 pick2 rx2 ry2 c2))) = hints (state later).
Proof.
  intros Hm Hacc Hevs Hlt later.
  assert (Hlast : lastScrollFlashTimeRef (hints (state later)) = t1).
  { unfold later. rewrite steps_keep_last by done.
    unfold step. rewrite Hm. cbn [negb handle].
    destruct (fadeEffect _ _) as [f started]. cbn [state hints with_fades with_hints].
    unfold handleScroll. destruct (Z.ltb_spec (t1 - lastScrollFlashTimeRef (hints (state pg)))
                                     SCROLL_FLASH_THROTTLE_MS) as [Hlt'|_]; [lia|].
    by rewrite showScrollFlash_last. }
  split; [done|]. unfold step. destruct (negb (mounted later)); [done|].
  cbn [handle]. destruct (fadeEffect _ _) as [f started].
  cbn [state hints with_fades with_hints]. unfold handleScroll. rewrite Hlast.
  destruct (Z.ltb_spec (t2 - t1) SCROLL_FLASH_THROTTLE_MS) as [_|Hge]; [done|lia].
Qed.

Lemma scroll_flash_throttled_witness :
  let later := foldl step (step initial (Scroll 1000 0 0 0 (Some sample_rect)))
                 [ScrollFlashTimeout] in
  mounted initial = true
  /\ (SCROLL_FLASH_THROTTLE_MS <= 1000 - lastScrollFlashTimeRef (hints (state initial)))%Z
  /\ (1300 - 1000 < SCROLL_FLASH_THROTTLE_MS)%Z
  /\ lastScrollFlashTimeRef (hints (state later)) = 1000%Z
  /\ hints (state (step later (Scroll 1300 1 0 0 (Some sample_rect)))) = hints (state later).
Proof.
  intros later.
  assert (H1 : (SCROLL_FLASH_THROTTLE_MS
                <= 1000 - lastScrollFlashTimeRef (hints (state initial)))%Z)
    by (vm_compute; discriminate).
  assert (H2 : (1300 - 1000 < SCROLL_FLASH_THROTTLE_MS)%Z) by reflexivity.
  split; [reflexivity|]. split; [exact H1|]. split; [exact H2|].
  exact (scroll_flash_throttled initial [ScrollFlashTimeout] 1000 1300
           0 0%float 0%float (Some sample_rect) 1 0%float 0%float (Some sample_rect)
           eq_refl H1 eq_refl H2).
Defined.

(** A click does nothing once the conversation has a message, while the
    input holds text, or on the About button and the footer links;
    otherwise it reveals the input, and with the container measured it
    places the prompt at the click position relative to the container
    and starts its timer. *)
Theorem click_only_before_conversation excluded clientX clientY container st :
  (messages (chat st) <> [] \/ inputValue (chat st) <> [] \/ excluded = true ->
     handleClick excluded clientX clientY container st = hints st)
  /\ (messages (chat st) = [] -> inputValue (chat st) = [] -> excluded = false ->
        inputRevealed (handleClick excluded clientX clientY container st) = true
        /\ forall rect, container = Some rect ->
             clickPrompt (handleClick excluded clientX clientY container st)
             = Some ((clientX - left rect)%float, (clientY - top rect)%float)
             /\ clickPromptTimeoutRef (handleClick excluded clientX clientY container st)
                = Some true).
Proof.
  unfold handleClick. split.
  - intros [Hm|[Hi|He]].
    + by destruct (messages (chat st)).
    + destruct (messages (chat st)); [|done]. by destruct (inputValue (chat st)).
    + subst excluded. by destruct (negb _ || _).
  - intros -> -> ->. cbn [length Nat.eqb negb truthy orb].
    split; [by destruct container|]. by intros rect ->.
Qed.

Lemma click_only_before_conversation_witness :
  messages (chat initialState) = [] /\ inputValue (chat initialState) = []
  /\ inputRevealed (handleClick false 10 20 (Some sample_rect) initialState) = true
  /\ clickPrompt (handleClick false 10 20 (Some sample_rect) initialState)
     = Some ((10 - left sample_rect)%float, (20 - top sample_rect)%float).
Proof.
  split; [reflexivity|]. split; [reflexivity|].
  pose proof (proj2 (click_only_before_conversation false 10 20 (Some sample_rect)
                       initialState) eq_refl eq_refl eq_refl) as [Hr Hp].
  split; [exact Hr|]. exact (proj1 (Hp sample_rect eq_refl)).
Defined.

(** A key press on the document types into the hidden input only before
    the conversation starts: with no message, no request loading and
    the input not focused, a one-unit key without Ctrl, Meta or Alt is
    appended to the input text and reveals the input; with a message, a
    request loading, the input focused, a modifier or a longer key name
    (such as "Enter") the state is unchanged. *)
Theorem keypress_seeds_input key ctrlKey metaKey altKey inputFocused st :
  (messages (chat st) = [] -> isLoading (chat st) = false -> inputFocused = false ->
   length key = 1 -> ctrlKey = false -> metaKey = false -> altKey = false ->
     let st' := onKeyDown key ctrlKey metaKey altKey inputFocused st in
     inputValue (chat st') = inputValue (chat st) ++ key
     /\ inputRevealed (hints st') = true
     /\ messages (chat st') = [] /\ isLoading (chat st') = false)
  /\ (messages (chat st) <> [] \/ isLoading (chat st) = true \/ inputFocused = true
      \/ length key <> 1 \/ ctrlKey = true \/ metaKey = true \/ altKey = true ->
        onKeyDown key ctrlKey metaKey altKey inputFocused st = st).
Proof.
  unfold onKeyDown. split.
  - intros Hm Hl -> Hk -> -> ->. rewrite Hm, Hl, Hk. cbn [length Nat.eqb negb orb andb].
    assert (Hne : key <> str "Enter") by (intros ->; discriminate).
    rewrite bool_decide_eq_false_2 by done. cbn [negb].
    cbn. by rewrite ?Hm, ?Hl.
  - intros H. destruct (negb (length (messages (chat st)) =? 0) || isLoading (chat st)) eqn:Hg;
      [done|].
    apply orb_false_iff in Hg as [Hm Hl]. apply negb_false_iff, Nat.eqb_eq in Hm.
    destruct inputFocused; [done|].
    destruct (Nat.eqb_spec (length key) 1) as [Hk|Hk]; [|done].
    destruct ctrlKey, metaKey, altKey; try done.
    destruct H as [H|[H|[H|[H|[H|[H|H]]]]]]; try done; try congruence.
    by destruct (messages (chat st)).
Qed.

Lemma keypress_seeds_input_witness :
  messages (chat initialState) = [] /\ isLoading (chat initialState) = false
  /\ length (str "a") = 1
  /\ inputValue (chat (onKeyDown (str "a") false false false false initialState))
     = inputValue (chat initialState) ++ str "a"
  /\ onKeyDown (str "Enter") false false false false initialState = initialState.
Proof.
  split; [reflexivity|]. split; [reflexivity|]. split; [reflexivity|].
  pose proof (keypress_seeds_input (str "a") false false false false initialState)
    as [Hseed _].
  pose proof (keypress_seeds_input (str "Enter") false false false false initialState)
    as [_ Hskip].
  split.
  - exact (proj1 (Hseed eq_refl eq_refl eq_refl eq_refl eq_refl eq_refl eq_refl)).
  - apply Hskip. right. right. right. left. vm_compute. discriminate.
Defined.


End handlers.

(** ** The page: fading over a whole run *)

Section fade_runs.
Import Page.
Implicit Types (f : Fades) (msgs : list Message) (msg : Message)
  (st : State) (cs : list Suspended) (pg : Component) (ev : Event) (i j k : nat).

Lemma forEach_from_timers msgs : forall i f,
  let f' := (forEach_from i msgs f).1 in
  fadingAssistantIndices f' = fadingAssistantIndices f
  /\ dom (assistantFadeTimeoutsRef f')
     = dom (assistantFadeTimeoutsRef f) ∪ (scheduledFadeRef f' ∖ scheduledFadeRef f)
  /\ (forall j d, assistantFadeTimeoutsRef f' !! j = Some d ->
        assistantFadeTimeoutsRef f !! j = Some d
        \/ exists k msg, j = i + k /\ msgs !! k = Some msg /\ role msg = assistant
                         /\ d = getAIMessageFadeDelayMs (content msg)).
Proof.
  induction msgs as [|m rest IH]; intros i f; cbn [forEach_from].
  { cbn [fst]. split; [done|]. split; [set_solver|]. by left. }
  destruct (decide (role m = assistant /\ i ∉ scheduledFadeRef f)) as [[Hr Hi]|Hn].
  - rewrite (scheduleFade_new i m f Hr Hi).
    set (f1 := {| scheduledFadeRef := _ |}).
    specialize (IH (S i) f1).
    pose proof (forEach_from_spec rest (S i) f1) as (Hs & _).
    destruct (forEach_from (S i) rest f1) as [f2 t2]. cbn [fst snd] in *.
    destruct IH as (Hf & Hd & Ht). split; [done|]. split.
    { rewrite Hd, Hs. subst f1. cbn [assistantFadeTimeoutsRef scheduledFadeRef].
      rewrite dom_insert_L. apply set_eq. intros x.
      destruct (decide (x = i)) as [->|Hx]; set_solver. }
    intros j d Hjd. apply Ht in Hjd as [Hjd|(k & msg & -> & Hk & Hrole & ->)].
    + subst f1. cbn [assistantFadeTimeoutsRef] in Hjd.
      apply lookup_insert_Some in Hjd as [[<- <-]|[_ Hjd]]; [|by left].
      right. exists 0, m. by rewrite Nat.add_0_r.
    + right. exists (S k), msg. repeat split; [lia|done|done].
  - rewrite (scheduleFade_skip i m f).
    2:{ destruct (decide (role m = assistant)); [|by left].
        right. destruct (decide (i ∈ scheduledFadeRef f)); [done|]. by destruct Hn. }
    specialize (IH (S i) f). destruct (forEach_from (S i) rest f) as [f2 t2].
    cbn [fst snd] in *. destruct IH as (Hf & Hd & Ht).
    split; [done|]. split; [done|].
    intros j d Hjd. apply Ht in Hjd as [Hjd|(k & msg & -> & Hk & Hrole & ->)]; [by left|].
    right. exists (S k), msg. repeat split; [lia|done|done].
Qed.

Lemma fadeEffect_fades msgs f :
  fades_sound msgs f ->
  scheduledFadeRef f ⊆ fadingAssistantIndices f ∪ dom (assistantFadeTimeoutsRef f) ->
  fades_sound msgs (fadeEffect msgs f).1 /\ fades_complete msgs (fadeEffect msgs f).1.
Proof.
  intros (Hdis & Hsub & Hrole & Hdel) Hcov. unfold fadeEffect.
  pose proof (forEach_from_spec msgs 0 f) as (Hs & _ & Hin & Hall).
  pose proof (forEach_from_timers msgs 0 f) as (Hf & Hd & Ht).
  destruct (forEach_from 0 msgs f) as [f' ts]. cbn [fst snd] in *.
  assert (Hmono : scheduledFadeRef f ⊆ scheduledFadeRef f') by set_solver.
  split; [split; [|split; [|split]]|split].
  - rewrite Hf, Hd. set_solver.
  - rewrite Hf, Hd. set_solver.
  - intros i Hi. rewrite Hs in Hi. apply elem_of_union in Hi as [Hi|Hi]; [by apply Hrole|].
    apply elem_of_list_to_set, list_elem_of_fmap in Hi as ([j d] & -> & Hjd).
    apply Hin in Hjd as (_ & k & msg & -> & Hk & Hr & _). by exists msg.
  - intros i d Hid. apply Ht in Hid as [Hid|(k & msg & -> & Hk & _ & ->)];
      [by apply Hdel|by exists msg].
  - rewrite Hf, Hd. intros x Hx.
    destruct (decide (x ∈ scheduledFadeRef f)); set_solver.
  - intros i msg Hi Hr. by apply (Hall i msg).
Qed.

Lemma fades_sound_extends msgs msgs' f :
  extends msgs' msgs -> fades_sound msgs f -> fades_sound msgs' f.
Proof.
  intros He (Hdis & Hsub & Hrole & Hdel). split; [done|]. split; [done|]. split.
  - intros i Hi. destruct (Hrole i Hi) as (msg & Hm & Hr).
    exists msg. split; [by eapply extends_lookup|done].
  - intros i d Hid. destruct (Hdel i d Hid) as (msg & Hm & Hd).
    exists msg. split; [by eapply extends_lookup|done].
Qed.

Lemma fadeTimeout_fades msgs index f :
  fades_sound msgs f ->
  fades_sound msgs (fadeTimeout index f)
  /\ (scheduledFadeRef f ⊆ fadingAssistantIndices f ∪ dom (assistantFadeTimeoutsRef f) ->
      scheduledFadeRef (fadeTimeout index f)
      ⊆ fadingAssistantIndices (fadeTimeout index f)
        ∪ dom (assistantFadeTimeoutsRef (fadeTimeout index f))).
Proof.
  intros (Hdis & Hsub & Hrole & Hdel). unfold fadeTimeout.
  destruct (assistantFadeTimeoutsRef f !! index) as [d|] eqn:Hi; [|by split].
  assert (Hin : index ∈ dom (assistantFadeTimeoutsRef f)) by by apply elem_of_dom.
  cbn [fadingAssistantIndices scheduledFadeRef assistantFadeTimeoutsRef].
  rewrite dom_delete_L. split; [split; [|split; [|split]]|].
  - set_solver.
  - set_solver.
  - done.
  - intros i d' Hid. cbn [assistantFadeTimeoutsRef] in Hid.
    apply lookup_delete_Some in Hid as [_ Hid]. by apply Hdel.
  - intros Hcov x Hx. destruct (decide (x = index)); set_solver.
Qed.

Lemma handle_fades ev st cs :
  fades (handle ev st cs).1
  = match ev with
    | FadeTimeout index => fadeTimeout index (fades st)
    | Unmount => fades (cleanup st)
    | _ => fades st
    end.
Proof.
  destruct ev; try done; cbn [handle].
  - by destruct (scrollFlashTimeoutRef (hints st)) as [[|]|].
  - by destruct (clickPromptTimeoutRef (hints st)) as [[|]|].
  - unfold onKeyDown.
    repeat (match goal with |- context [if ?b then _ else _] => destruct b end); done.
  - by destruct (inputRendered st).
  - destruct (inputRendered st && _ && _); [|done].
    by destruct (exec (sendMessage (chat st)) (chat st)).
  - destruct (cs !! call) as [[|body k|ms k]|]; try done.
    unfold resume. by destruct (exec (k r) (chat st)).
  - destruct (cs !! call) as [[|body k|ms k]|]; try done.
    unfold resume. by destruct (exec k (chat st)).
Qed.

Lemma step_fades pg ev :
  calls_append_only (calls pg) ->
  fades_sound (messages (chat (state pg))) (fades (state pg)) ->
  (mounted pg = true -> fades_complete (messages (chat (state pg))) (fades (state pg))) ->
  let pg' := step pg ev in
  fades_sound (messages (chat (state pg'))) (fades (state pg'))
  /\ (mounted pg' = true ->
        fades_complete (messages (chat (state pg'))) (fades (state pg'))).
Proof.
  intros Hcs Hsound Hcomplete. unfold step.
  destruct (mounted pg) eqn:Hm; cbn [negb]; [|by rewrite Hm].
  destruct (Hcomplete eq_refl) as [Hcov _].
  destruct (handle_extends ev (state pg) (calls pg) Hcs) as [Hext _].
  pose proof (handle_fades ev (state pg) (calls pg)) as Hf.
  destruct (handle ev (state pg) (calls pg)) as [st cs']. cbn [fst] in Hext, Hf.
  pose proof (fades_sound_extends _ _ _ Hext Hsound) as Hsound'.
  assert (Hunmount : ev = Unmount ->
            fades_sound (messages (chat st)) (fades st)).
  { intros ->. rewrite Hf. destruct Hsound' as (Hdis & Hsub & Hrole & Hdel).
    cbn [cleanup fades]. unfold fades_sound.
    cbn [fadingAssistantIndices scheduledFadeRef assistantFadeTimeoutsRef].
    rewrite dom_empty_L. split; [set_solver|]. split; [set_solver|]. split; [done|].
    intros i d Hid. by rewrite lookup_empty in Hid. }
  assert (Hother : ev <> Unmount ->
            let f := (fadeEffect (messages (chat st)) (fades st)).1 in
            fades_sound (messages (chat st)) f /\ fades_complete (messages (chat st)) f).
  { intros Hev. assert (Hpre : fades_sound (messages (chat st)) (fades st)
      /\ scheduledFadeRef (fades st)
         ⊆ fadingAssistantIndices (fades st) ∪ dom (assistantFadeTimeoutsRef (fades st))).
    { destruct ev; try (by rewrite Hf).
      rewrite Hf. destruct (fadeTimeout_fades _ index _ Hsound') as [H1 H2]. by split; [|apply H2]. }
    destruct Hpre as [H1 H2]. by apply fadeEffect_fades. }
  destruct ev;
    try (specialize (Hother ltac:(discriminate));
         destruct (fadeEffect (messages (chat st)) (fades st)) as [f started];
         cbn [state with_fades chat fades mounted fst] in *; by destruct Hother).
  cbn [state mounted]. split; [by apply Hunmount|done].
Qed.

Lemma run_fades evs :
  let pg := run evs in
  fades_sound (messages (chat (state pg))) (fades (state pg))
  /\ (mounted pg = true -> fades_complete (messages (chat (state pg))) (fades (state pg))).
Proof.
  induction evs as [|ev evs IH] using rev_ind.
  { cbn. split; [|intros _]; repeat split; set_solver. }
  cbv zeta in *. unfold run in *. rewrite foldl_app. cbn [foldl].
  destruct IH as [H1 H2]. apply step_fades; [apply run_calls_append_only|done|done].
Qed.

(** After any events, every assistant message of the history of a
    mounted page is either fading or waiting on a pending fade timer,
    never both; a pending timer belongs to an assistant message and has
    the fade delay of that message; and no index that holds a user
    message, or no message, is ever fading or waiting. *)
Theorem assistant_messages_fade evs :
  let pg := run evs in
  let msgs := messages (chat (state pg)) in
  let f := fades (state pg) in
  (forall i, ~ (i ∈ fadingAssistantIndices f /\ is_Some (assistantFadeTimeoutsRef f !! i)))
  /\ (forall i, i ∈ fadingAssistantIndices f \/ is_Some (assistantFadeTimeoutsRef f !! i) ->
        exists msg, msgs !! i = Some msg /\ role msg = assistant)
  /\ (forall i d, assistantFadeTimeoutsRef f !! i = Some d ->
        exists msg, msgs !! i = Some msg /\ role msg = assistant
                    /\ d = getAIMessageFadeDelayMs (content msg))
  /\ (mounted pg = true ->
        forall i msg, msgs !! i = Some msg -> role msg = assistant ->
          i ∈ fadingAssistantIndices f \/ is_Some (assistantFadeTimeoutsRef f !! i)).
Proof.
  intros pg msgs f.
  destruct (run_fades evs) as [(Hdis & Hsub & Hrole & Hdel) Hcomplete].
  fold pg in Hdis, Hsub, Hrole, Hdel, Hcomplete. fold msgs f in Hdis, Hsub, Hrole, Hdel, Hcomplete.
  assert (Hsched : forall i,
            i ∈ fadingAssistantIndices f \/ is_Some (assistantFadeTimeoutsRef f !! i) ->
            i ∈ scheduledFadeRef f).
  { intros i [Hi|Hi]; [set_solver|]. apply elem_of_dom in Hi. set_solver. }
  split; [|split; [|split]].
  - intros i [Hi1 Hi2]. apply elem_of_dom in Hi2. set_solver.
  - intros i Hi. by apply Hrole, Hsched.
  - intros i d Hid. destruct (Hdel i d Hid) as (msg & Hm & Hd).
    destruct (Hrole i (Hsched i (or_intror (mk_is_Some _ _ Hid)))) as (msg' & Hm' & Hr).
    exists msg. rewrite Hm in Hm'. injection Hm' as <-. done.
  - intros Hm i msg Hi Hr. destruct (Hcomplete Hm) as [Hcov Hall].
    specialize (Hall i msg Hi Hr). apply Hcov in Hall.
    apply elem_of_union in Hall as [Hall|Hall]; [by left|right]. by apply elem_of_dom.
Qed.

End fade_runs.

(** ** The page served by the relay *)

Section wire.
Import Page.
Implicit Types (c : Chat) (msgs : list Message) (m : Message)
  (model : Route.ModelCall -> Route.ModelReply) (apiKey : option jsstring).

Lemma to_turn_user m : Route.is_user_turn (Wire.to_turn m) <-> role m = user.
Proof. unfold Route.is_user_turn. destruct m as [[|] s]; by cbn. Qed.

Lemma to_turn_as_content m :
  Route.as_content (Wire.to_turn m)
  = {| Route.role := match role m with user => str "user" | assistant => str "model" end;
       Route.text := Some (Route.JString (content m)) |}.
Proof.
  unfold Route.as_content. case_bool_decide as H; rewrite to_turn_user in H.
  - by rewrite H.
  - by destruct (role m).
Qed.

Lemma replayed_snoc (ts : list Route.Turn) x :
  Route.replayed (ts ++ [x]) = drop (length ts - 20) ts.
Proof.
  unfold Route.replayed. rewrite length_app. change (length [x]) with 1.
  replace (length ts + 1 - 1) with (length ts) by lia.
  by rewrite take_app_length.
Qed.

(** A finished submission, whichever way the fetch settled. *)
Lemma complete_success c r reply :
  trim (inputValue c) <> [] -> isLoading c = false -> Success r reply ->
  messages (complete r (sendMessage c) c)
  = messages c ++ [ {| role := user; content := trim (inputValue c) |};
                    {| role := assistant; content := reply |} ]
  /\ isLoading (complete r (sendMessage c) c) = false.
Proof.
  intros Ht Hl Hs. rewrite (sendMessage_submits c Ht Hl). cbv zeta.
  destruct (reveal_effects r reply (S (length reply)) 0
              (Do (setMessages (fun prev => prev ++ [{| role := assistant; content := reply |}]))
                  (Do (setCurrentResponse []) finally_block)))
    as (es & Hes & _ & _ & _ & Hc & Hload).
  unfold complete. cbn [effects]. rewrite (afterFetch_success r reply Hs).
  cbn [effects]. rewrite Hes. cbn [foldl perform]. rewrite complete_app.
  cbn [effects finally_block foldl perform]. split.
  - cbn. rewrite Hc. cbn. by rewrite <- app_assoc.
  - done.
Qed.

Lemma complete_failure c r text :
  trim (inputValue c) <> [] -> isLoading c = false -> Failure r text ->
  messages (complete r (sendMessage c) c)
  = messages c ++ [ {| role := user; content := trim (inputValue c) |};
                    {| role := assistant; content := text |} ]
  /\ isLoading (complete r (sendMessage c) c) = false.
Proof.
  intros Ht Hl Hf. rewrite (sendMessage_submits c Ht Hl). cbv zeta.
  unfold complete. cbn [effects]. rewrite (afterFetch_failure r text Hf).
  cbn. by rewrite <- app_assoc.
Qed.

(** The relay on the page's request, with the credential configured. *)
Lemma served_configured apiKey model c :
  Route.configured apiKey -> trim (inputValue c) <> [] ->
  let text := trim (inputValue c) in
  let call := Wire.call_of (messages c) text in
  Wire.served apiKey model (messages c ++ [{| role := user; content := text |}])
  = match model call with
    | Route.Fails err =>
        (Route.json_response 500 (Route.ErrorBody (Route.toErrorMessage err)), [call])
    | Route.Text reply =>
        if truthy (trim (default [] reply)) then
          (Route.json_response 200 (Route.ContentBody (trim (default [] reply))), [call])
        else
          (Route.json_response 502 (Route.ErrorBody (str
             "The diary had nothing to say. It may have been blocked or returned no text. Try rephrasing.")),
           [call])
    end.
Proof.
  intros Hk Ht text call. unfold Wire.served, Wire.request.
  set (u := {| role := user; content := text |}).
  rewrite (POST_turns apiKey _ (map Wire.to_turn (messages c ++ [u])) model Hk
             (messages_of_request _))
    by (rewrite map_app; by destruct (map Wire.to_turn (messages c))).
  rewrite map_app. cbn [map].
  rewrite final_user_turn_snoc by (by apply to_turn_user).
  assert (Htr : truthy (trim (Route.turn_content (Wire.to_turn u))) = true).
  { cbn [Wire.to_turn Route.turn_content content u]. unfold text.
    rewrite trim_idemp. by apply truthy_true. }
  rewrite Htr.
  assert (Hcall : Route.call_for (map Wire.to_turn (messages c) ++ [Wire.to_turn u])
                    (Wire.to_turn u) = call).
  { unfold Route.call_for, call, Wire.call_of. rewrite replayed_snoc, length_map.
    f_equal.
    - change (@map Message Route.Turn) with (@fmap list _ Message Route.Turn).
      rewrite <- fmap_drop. generalize (drop (length (messages c) - 20) (messages c)).
      intros l. induction l as [|m l IH]; [done|].
      cbn [fmap list_fmap map]. rewrite to_turn_as_content. f_equal. apply IH.
    - cbn [Wire.to_turn Route.turn_content content u]. apply trim_idemp. }
  by rewrite Hcall.
Qed.

Lemma page_request_shape apiKey model c :
  Route.configured apiKey -> trim (inputValue c) <> [] ->
  let text := trim (inputValue c) in
  let sent := messages c ++ [{| role := user; content := text |}] in
  (Wire.served apiKey model sent).2 = [Wire.call_of (messages c) text]
  /\ Route.status (Wire.served apiKey model sent).1 <> 400%Z.
Proof.
  intros Hk Ht text sent. unfold sent, text.
  rewrite (served_configured apiKey model c Hk Ht). cbv zeta.
  destruct (model _) as [reply|err]; [|by split].
  by destruct (truthy (trim (default [] reply))).
Qed.

(** What the page submits always passes the relay's validation: with
    the credential configured, the request that [sendMessage] makes for
    a non-blank input never gets a 400, and the hosted model is called
    exactly once, with the trimmed input as the new input and the last
    twenty (or fewer) messages of the page's history before it as the
    history, assistant messages sent under the role ["model"]. *)
Theorem page_request_is_valid apiKey model c :
  Route.configured apiKey -> trim (inputValue c) <> [] -> isLoading c = false ->
  let text := trim (inputValue c) in
  let sent := messages c ++ [{| role := user; content := text |}] in
  (exec (sendMessage c) c).2 = OnFetch sent afterFetch
  /\ Route.status (Wire.served apiKey model sent).1 <> 400%Z
  /\ (Wire.served apiKey model sent).2 = [Wire.call_of (messages c) text].
Proof.
  intros Hk Ht Hl text sent. split.
  - by rewrite (sendMessage_submits c Ht Hl).
  - unfold sent, text. rewrite (served_configured apiKey model c Hk Ht). cbv zeta.
    destruct (model _) as [reply|err]; [|by split].
    by destruct (truthy (trim (default [] reply))).
Qed.

Lemma page_request_is_valid_witness :
  Route.configured Route.sample_key /\ trim (inputValue Wire.chat_two) <> []
  /\ isLoading Wire.chat_two = false
  /\ (Wire.served Route.sample_key Wire.polite_model
        (messages Wire.chat_two
         ++ [{| role := user; content := trim (inputValue Wire.chat_two) |}])).2
     = [Wire.call_of (messages Wire.chat_two) (str "and you?")].
Proof.
  assert (Hk : Route.configured Route.sample_key) by reflexivity.
  assert (Ht : trim (inputValue Wire.chat_two) <> []) by (vm_compute; discriminate).
  split; [exact Hk|]. split; [exact Ht|]. split; [reflexivity|].
  exact (proj2 (proj2 (page_request_is_valid Route.sample_key Wire.polite_model
                         Wire.chat_two Hk Ht eq_refl))).
Defined.

(** A reply of the hosted model reaches the page's history: with the
    credential configured, when the model answers the page's call with
    a text that is not blank, the submission ends with the history
    extended by the user message and then the assistant message whose
    content is that text trimmed, and with the loading flag cleared. *)
Theorem reply_reaches_history apiKey model c t :
  Route.configured apiKey -> trim (inputValue c) <> [] -> isLoading c = false ->
  model (Wire.call_of (messages c) (trim (inputValue c))) = Route.Text (Some t) ->
  trim t <> [] ->
  messages (Wire.round apiKey model c)
  = messages c ++ [ {| role := user; content := trim (inputValue c) |};
                    {| role := assistant; content := trim t |} ]
  /\ isLoading (Wire.round apiKey model c) = false.
Proof.
  intros Hk Ht Hl Hm Hr. unfold Wire.round. cbv zeta.
  rewrite (served_configured apiKey model c Hk Ht). cbv zeta. rewrite Hm.
  change (default [] (Some t)) with t. rewrite (proj2 (truthy_true _) Hr). cbn [fst].
  apply complete_success; [done|done|].
  unfold Wire.deliver. cbn [Route.status Route.body Route.json_response Wire.data_of].
  change (Wire.ok 200) with true.
  pose proof (success_reply {| data_error := None; data_content := Some (trim t) |}
                (trim t) eq_refl) as Hs.
  rewrite trim_idemp in Hs. by apply Hs.
Qed.

Lemma reply_reaches_history_witness :
  Route.configured Route.sample_key /\ trim (inputValue Wire.chat_two) <> []
  /\ isLoading Wire.chat_two = false /\ trim (str " Quite well. ") <> []
  /\ messages (Wire.round Route.sample_key Wire.polite_model Wire.chat_two)
     = messages Wire.chat_two
       ++ [ {| role := user; content := trim (inputValue Wire.chat_two) |};
            {| role := assistant; content := trim (str " Quite well. ") |} ].
Proof.
  assert (Hk : Route.configured Route.sample_key) by reflexivity.
  assert (Ht : trim (inputValue Wire.chat_two) <> []) by (vm_compute; discriminate).
  assert (Hr : trim (str " Quite well. ") <> []) by (vm_compute; discriminate).
  split; [exact Hk|]. split; [exact Ht|]. split; [reflexivity|]. split; [exact Hr|].
  exact (proj1 (reply_reaches_history Route.sample_key Wire.polite_model Wire.chat_two
                  (str " Quite well. ") Hk Ht eq_refl eq_refl Hr)).
Defined.

(** A refusal of the relay reaches the page's history as an assistant
    message.  For a non-blank submission made while nothing is loading:
    without the credential the assistant message is "GEMINI_API_KEY is
    not configured."; with it, when the model returns no text or a
    blank one the message is the relay's 502 text, and when the model
    call throws, the message is what [toErrorMessage] gives for the
    thrown value, or "Request failed" when that is empty. *)
Theorem relay_error_reaches_history apiKey model c :
  trim (inputValue c) <> [] -> isLoading c = false ->
  let call := Wire.call_of (messages c) (trim (inputValue c)) in
  let shows text :=
    messages (Wire.round apiKey model c)
    = messages c ++ [ {| role := user; content := trim (inputValue c) |};
                      {| role := assistant; content := text |} ] in
  (~ Route.configured apiKey -> shows (str "GEMINI_API_KEY is not configured."))
  /\ (Route.configured apiKey ->
      forall t, model call = Route.Text t -> trim (default [] t) = [] ->
        shows (str "The diary had nothing to say. It may have been blocked or returned no text. Try rephrasing."))
  /\ (Route.configured apiKey ->
      forall err, model call = Route.Fails err ->
        shows (if truthy (Route.toErrorMessage err) then Route.toErrorMessage err
               else str "Request failed")).
Proof.
  intros Ht Hl call shows. unfold shows, Wire.round. cbv zeta. split; [|split].
  - intros Hk. unfold Route.configured in Hk. apply not_true_is_false in Hk.
    unfold Wire.served, Route.POST, Route.POST_try. rewrite Hk. cbn [negb fst].
    apply complete_failure; [done|done|].
    by apply (failure_status_with_error
                {| data_error := Some (str "GEMINI_API_KEY is not configured.");
                   data_content := None |}).
  - intros Hk t Hm Hr. rewrite (served_configured apiKey model c Hk Ht). cbv zeta.
    fold call. rewrite Hm, Hr. cbn [truthy fst].
    apply complete_failure; [done|done|].
    by apply (failure_status_with_error
                {| data_error := Some (str
                     "The diary had nothing to say. It may have been blocked or returned no text. Try rephrasing.");
                   data_content := None |}).
  - intros Hk err Hm. rewrite (served_configured apiKey model c Hk Ht). cbv zeta.
    fold call. rewrite Hm. cbn [fst].
    apply complete_failure; [done|done|].
    unfold Wire.deliver. cbn [Route.status Route.body Route.json_response Wire.data_of].
    change (Wire.ok 500) with false.
    destruct (truthy (Route.toErrorMessage err)) eqn:He.
    + apply failure_status_with_error; [done|by apply truthy_true].
    + apply failure_status_without_error. right. cbn [data_error].
      apply truthy_false in He. by rewrite He.
Qed.

Lemma relay_error_reaches_history_witness :
  trim (inputValue Wire.chat_two) <> [] /\ isLoading Wire.chat_two = false
  /\ ~ Route.configured None
  /\ messages (Wire.round None Wire.polite_model Wire.chat_two)
     = messages Wire.chat_two
       ++ [ {| role := user; content := trim (inputValue Wire.chat_two) |};
            {| role := assistant; content := str "GEMINI_API_KEY is not configured." |} ].
Proof.
  assert (Ht : trim (inputValue Wire.chat_two) <> []) by (vm_compute; discriminate).
  assert (Hk : ~ Route.configured None) by (vm_compute; discriminate).
  split; [exact Ht|]. split; [reflexivity|]. split; [exact Hk|].
  exact (proj1 (relay_error_reaches_history None Wire.polite_model Wire.chat_two
                  Ht eq_refl) Hk).
Defined.

End wire.

(** ** The fade delay: where the clamp takes over *)

Section thresholds.
Import Page.

Lemma delay_formula_thresholds_table :
  forallb (fun n =>
    Bool.eqb (PrimFloat.eqb (delay_formula n) 5000) (n <=? 3)
    && negb (PrimFloat.eqb (delay_formula n) 15000))
    (seq 0 37) = true.
Proof. vm_compute. reflexivity. Qed.

Lemma delay_formula_below_37 n :
  n < 37 ->
  PrimFloat.eqb (delay_formula n) 5000 = (n <=? 3)
  /\ PrimFloat.eqb (delay_formula n) 15000 = false.
Proof.
  intros Hn. pose proof delay_formula_thresholds_table as H.
  rewrite forallb_forall in H. specialize (H n ltac:(apply in_seq; lia)).
  apply andb_true_iff in H as [H1 H2].
  split; [by apply Bool.eqb_prop|by apply negb_true_iff].
Qed.

Lemma delay_formula_floor n : n <= 3 -> delay_formula n = 5000%float.
Proof.
  intros Hn. destruct n as [|[|[|[|n]]]]; [vm_compute; reflexivity ..|lia].
Qed.

(** The clamp takes over at fixed word counts: for a content of a
    length that a string can have, the fade delay is the 5000 ms floor
    exactly when the content has at most 3 words (so also when it is
    empty or blank), and the 15000 ms cap exactly when it has 37 words
    or more. *)
Theorem fade_delay_thresholds s :
  (Z.of_nat (length s) < 2 ^ 53)%Z ->
  (getAIMessageFadeDelayMs s = 5000%float <-> wordCount (trim s) <= 3)
  /\ (getAIMessageFadeDelayMs s = 15000%float <-> 37 <= wordCount (trim s)).
Proof.
  intros Hlen. rewrite getAIMessageFadeDelayMs_formula, <- words_wordCount.
  pose proof (words_length s) as Hw.
  assert (Hlt : (Z.of_nat (words s) < 2 ^ 63)%Z) by lia.
  destruct (le_lt_dec 37 (words s)) as [Hn|Hn].
  - rewrite (delay_formula_saturates _ Hn Hlt). split; split; try done; lia.
  - destruct (delay_formula_below_37 _ Hn) as [H5 H15]. split; split.
    + intros H. rewrite H in H5. apply Nat.leb_le. by rewrite <- H5.
    + apply delay_formula_floor.
    + intros H. rewrite H in H15. vm_compute in H15. discriminate.
    + lia.
Qed.

Lemma fade_delay_thresholds_witness :
  (Z.of_nat (length one_long_word) < 2 ^ 53)%Z
  /\ wordCount (trim one_long_word) <= 3
  /\ getAIMessageFadeDelayMs one_long_word = 5000%float.
Proof.
  assert (H1 : (Z.of_nat (length one_long_word) < 2 ^ 53)%Z) by (vm_compute; reflexivity).
  assert (Hw : wordCount (trim one_long_word) <= 3) by (vm_compute; lia).
  split; [exact H1|]. split; [exact Hw|].
  exact (proj2 (proj1 (fade_delay_thresholds one_long_word H1)) Hw).
Defined.

End thresholds.

(** ** The page: turn taking *)

Section turns.
Import Page.
Implicit Types (c : Chat) (p k : Async) (st : State) (cs : list Suspended)
  (s : Suspended) (pg : Component) (ev : Event) (msgs : list Message).

Lemma exec_quiet p : forall c,
  quiet p -> (exec p c).2 = Finished /\ messages (exec p c).1 = messages c.
Proof.
  induction p as [|u k IH|body k _|ms k _]; intros c Hp; cbn [exec quiet] in *; try done.
  destruct u; try done;
    match goal with |- context [exec k ?c'] => destruct (IH c' Hp) as [H1 H2] end;
    by rewrite H1, H2.
Qed.

Lemma exec_replies_once p : forall c,
  replies_once p ->
  (unfinished (exec p c).2 = true /\ messages (exec p c).1 = messages c
   /\ suspended_replies_once (exec p c).2)
  \/ ((exec p c).2 = Finished
      /\ exists text, messages (exec p c).1
                      = messages c ++ [{| role := assistant; content := text |}]).
Proof.
  induction p as [|u k IH|body k _|ms k _]; intros c Hp; cbn [exec replies_once] in *.
  - done.
  - destruct u;
      try (match goal with |- context [exec k ?c'] => by apply (IH c' Hp) end).
    destruct Hp as [[text Hf] Hk]. right.
    destruct (exec_quiet k (apply (setMessages f) c) Hk) as [H1 H2].
    split; [done|]. exists text. rewrite H2. cbn. apply Hf.
  - left. by cbn.
  - left. by cbn.
Qed.

Lemma quiet_finally : quiet finally_block.
Proof. by cbn. Qed.

Lemma catch_replies_once err : replies_once (catch_block err).
Proof. cbn. split; [by eexists|done]. Qed.

Lemma reveal_replies_once fullText n : forall i k,
  replies_once k -> replies_once (reveal fullText n i k).
Proof. induction n as [|n IH]; intros i k Hk; cbn [reveal replies_once]; [done|by apply IH]. Qed.

Lemma afterFetch_replies_once r : replies_once (afterFetch r).
Proof.
  destruct r as [err|ok json]; unfold afterFetch; [apply catch_replies_once|].
  destruct (negb ok); [apply catch_replies_once|].
  destruct (negb (truthy _)); [apply catch_replies_once|].
  cbn [replies_once]. apply reveal_replies_once. cbn. split; [by eexists|done].
Qed.

Lemma alternating_snoc msgs m :
  alternating msgs ->
  role m = (if Nat.even (length msgs) then user else assistant) ->
  alternating (msgs ++ [m]).
Proof.
  intros Ha Hm i m' Hi. apply lookup_app_Some in Hi as [Hi|[Hge Hi]]; [by apply Ha|].
  destruct (i - length msgs) as [|j] eqn:Hj; [|done]. cbn in Hi. injection Hi as <-.
  by replace i with (length msgs) by lia.
Qed.

Lemma unfinished_loading st cs call old :
  one_at_a_time st cs -> cs !! call = Some old -> unfinished old = true ->
  isLoading (chat st) = true.
Proof.
  intros [Hn _] Hcall Hold. destruct (isLoading (chat st)); [done|].
  pose proof (in_flight_insert cs call old Finished Hcall) as H.
  rewrite Hold in H. cbn [unfinished] in H. exfalso. lia.
Qed.

Lemma resume_turn_taking call p st cs old :
  cs !! call = Some old -> unfinished old = true ->
  clears_loading_last p -> replies_once p ->
  one_at_a_time st cs -> turn_taking st cs ->
  turn_taking (resume call p st cs).1 (resume call p st cs).2.
Proof.
  intros Hcall Hold Hclr Hp Hone (Halt & Hpar & Hall). unfold resume.
  pose proof (unfinished_loading st cs call old Hone Hcall Hold) as Hl.
  rewrite Hl in Hpar. cbn [negb] in Hpar.
  destruct (exec_clears_loading p (chat st) Hclr Hl) as [(Hu & Hl' & _)|[Hf Hl']];
    destruct (exec_replies_once p (chat st) Hp) as [(Hu' & Hm & Hs)|(Hf' & text & Hm)];
    destruct (exec p (chat st)) as [c s]; cbn [fst snd chat with_chat] in *;
    try (subst s; discriminate).
  - unfold turn_taking. cbn [chat with_chat]. rewrite Hm, Hl'. cbn [negb].
    split; [done|]. split; [done|by apply Forall_insert].
  - unfold turn_taking. cbn [chat with_chat]. rewrite Hm, Hl', length_app. cbn [negb length].
    split; [apply alternating_snoc; [done|by rewrite Hpar]|].
    split; [|subst s; by apply Forall_insert].
    rewrite Nat.add_1_r, Nat.even_succ, <- Nat.negb_even. by rewrite Hpar.
Qed.

Lemma handle_turn_taking ev st cs :
  one_at_a_time st cs -> turn_taking st cs ->
  turn_taking (handle ev st cs).1 (handle ev st cs).2.
Proof.
  intros Hone Hinv. destruct ev; cbn [handle]; try done.
  - by destruct (scrollFlashTimeoutRef (hints st)) as [[|]|].
  - by destruct (clickPromptTimeoutRef (hints st)) as [[|]|].
  - unfold onKeyDown.
    repeat (match goal with |- context [if ?b then _ else _] => destruct b end); done.
  - by destruct (inputRendered st).
  - destruct (inputRendered st) eqn:Hr; cbn [andb]; [|done].
    destruct (bool_decide _ && negb _); [|done].
    assert (Hl : isLoading (chat st) = false).
    { unfold inputRendered in Hr. apply andb_true_iff in Hr as [_ Hr].
      by apply negb_true_iff in Hr. }
    destruct Hinv as (Halt & Hpar & Hall). rewrite Hl in Hpar. cbn [negb] in Hpar.
    destruct (trim (inputValue (chat st))) as [|x t] eqn:Ht.
    + rewrite (sendMessage_ignores (chat st)) by (by left).
      unfold turn_taking. cbn [exec fst snd chat with_chat]. rewrite Hl.
      split; [done|]. split; [done|]. apply Forall_app. split; [done|by constructor].
    + rewrite (sendMessage_submits (chat st)) by (done || by rewrite Ht).
      unfold turn_taking. cbn [exec fst snd chat with_chat apply isLoading messages].
      rewrite length_app. cbn [length negb]. split; [|split].
      * apply alternating_snoc; [done|]. by rewrite Hpar.
      * rewrite Nat.add_1_r, Nat.even_succ, <- Nat.negb_even. by rewrite Hpar.
      * apply Forall_app. split; [done|]. constructor; [|done].
        intros r. apply afterFetch_replies_once.
  - destruct (cs !! call) as [[|body k|ms k]|] eqn:Hcall; try done.
    apply (resume_turn_taking call (k r) st cs (OnFetch body k)); try done.
    + destruct Hone as [_ Hall]. eapply Forall_lookup_1 in Hall; [|done]. apply Hall.
    + destruct Hinv as (_ & _ & Hall). eapply Forall_lookup_1 in Hall; [|done]. apply Hall.
  - destruct (cs !! call) as [[|body k|ms k]|] eqn:Hcall; try done.
    apply (resume_turn_taking call k st cs (OnTimeout ms k)); try done.
    + destruct Hone as [_ Hall]. eapply Forall_lookup_1 in Hall; [|done]. apply Hall.
    + destruct Hinv as (_ & _ & Hall). eapply Forall_lookup_1 in Hall; [|done]. apply Hall.
Qed.

Lemma run_turn_taking evs : turn_taking (state (run evs)) (calls (run evs)).
Proof.
  induction evs as [|ev evs IH] using rev_ind.
  { split; [|by split]. by intros i m Hi. }
  pose proof (run_one_at_a_time evs) as Hone.
  unfold run in *. rewrite foldl_app. cbn [foldl]. set (pg := foldl step initial evs) in *.
  unfold step. destruct (negb (mounted pg)); [done|].
  pose proof (handle_turn_taking ev (state pg) (calls pg) Hone IH) as H.
  destruct (handle ev (state pg) (calls pg)) as [st cs]. cbn [fst snd] in H.
  destruct (fadeEffect (messages (chat st)) (fades st)) as [f started].
  by destruct ev.
Qed.

(** The history takes turns.  After any events its messages alternate
    between user and assistant, the first being a user message; it
    ends with a user message exactly while a request is loading, and
    otherwise it is empty or ends with an assistant message. *)
Theorem history_takes_turns evs :
  let c := chat (state (run evs)) in
  (forall i m, messages c !! i = Some m ->
     role m = if Nat.even i then user else assistant)
  /\ (isLoading c = true <-> exists m, last (messages c) = Some m /\ role m = user)
  /\ (isLoading c = false <->
      messages c = [] \/ exists m, last (messages c) = Some m /\ role m = assistant).
Proof.
  intros c. destruct (run_turn_taking evs) as (Halt & Hpar & _).
  fold c in Halt, Hpar. split; [done|].
  assert (Hlast : forall m, last (messages c) = Some m ->
            role m = if isLoading c then user else assistant).
  { intros m Hm. rewrite last_lookup in Hm. specialize (Halt _ _ Hm).
    destruct (messages c) as [|x l] eqn:Hmsgs; [done|]. cbn [length pred] in *.
    rewrite Nat.even_succ, <- Nat.negb_even in Hpar.
    apply (f_equal negb) in Hpar. rewrite !negb_involutive in Hpar.
    by rewrite Hpar in Halt. }
  split; split.
  - intros Hl. destruct (last (messages c)) as [m|] eqn:Hm.
    + exists m. split; [done|]. rewrite (Hlast m eq_refl). by rewrite Hl.
    + apply last_None in Hm. rewrite Hm, Hl in Hpar. discriminate.
  - intros (m & Hm & Hr). rewrite (Hlast m Hm) in Hr. by destruct (isLoading c).
  - intros Hl. destruct (last (messages c)) as [m|] eqn:Hm.
    + right. exists m. split; [done|]. rewrite (Hlast m eq_refl). by rewrite Hl.
    + left. by apply last_None.
  - intros [Hnil|(m & Hm & Hr)].
    + rewrite Hnil in Hpar. cbn in Hpar. by destruct (isLoading c).
    + rewrite (Hlast m Hm) in Hr. by destruct (isLoading c).
Qed.

(** What the hosted model is given takes turns too: for a submission
    made from any state the page can reach, with the credential
    configured, the history of the model call alternates between the
    roles ["user"] and ["model"], beginning with ["user"]. *)
Theorem model_history_takes_turns evs apiKey model :
  let c := chat (state (run evs)) in
  let sent := messages c ++ [{| role := user; content := trim (inputValue c) |}] in
  Route.configured apiKey -> trim (inputValue c) <> [] -> isLoading c = false ->
  forall call, call ∈ (Wire.served apiKey model sent).2 ->
    forall i entry, Route.history call !! i = Some entry ->
      Route.role entry = if Nat.even i then str "user" else str "model".
Proof.
  intros c sent Hk Ht Hl call Hcall i entry Hi.
  destruct (run_turn_taking evs) as (Halt & Hpar & _). fold c in Halt, Hpar.
  rewrite Hl in Hpar. cbn [negb] in Hpar.
  destruct (page_request_shape apiKey model c Hk Ht) as [Hsent _].
  fold sent in Hsent. rewrite Hsent in Hcall. apply list_elem_of_singleton in Hcall as ->.
  unfold Wire.call_of in Hi. cbn [Route.history] in Hi.
  change (@map Message Route.Content) with (@fmap list _ Message Route.Content) in Hi.
  rewrite list_lookup_fmap, lookup_drop in Hi.
  destruct (messages c !! (length (messages c) - 20 + i)) as [m|] eqn:Hm; [|done].
  cbn in Hi. injection Hi as <-. cbn [Route.role].
  rewrite (Halt _ _ Hm).
  assert (Hev : Nat.even (length (messages c) - 20 + i) = Nat.even i).
  { rewrite Nat.even_add.
    destruct (le_lt_dec (length (messages c)) 20) as [Hle|Hgt].
    - replace (length (messages c) - 20) with 0 by lia. cbn. by destruct (Nat.even i).
    - assert (He : Nat.even (length (messages c) - 20) = true).
      { rewrite Nat.even_sub by lia. rewrite Hpar. done. }
      rewrite He. by destruct (Nat.even i). }
  rewrite Hev. by destruct (Nat.even i).
Qed.

Lemma model_history_takes_turns_witness :
  let c := chat (state (run sample_events)) in
  let sent := messages c ++ [{| role := user; content := trim (inputValue c) |}] in
  Route.configured Route.sample_key /\ trim (inputValue c) <> [] /\ isLoading c = false
  /\ length (messages c) = 2
  /\ forall call, call ∈ (Wire.served Route.sample_key Wire.polite_model sent).2 ->
       forall i entry, Route.history call !! i = Some entry ->
         Route.role entry = if Nat.even i then str "user" else str "model".
Proof.
  intros c sent.
  assert (Hk : Route.configured Route.sample_key) by reflexivity.
  assert (Ht : trim (inputValue c) <> []) by (vm_compute; discriminate).
  assert (Hl : isLoading c = false) by (vm_compute; reflexivity).
  split; [exact Hk|]. split; [exact Ht|]. split; [exact Hl|].
  split; [vm_compute; reflexivity|].
  exact (model_history_takes_turns sample_events Route.sample_key Wire.polite_model
           Hk Ht Hl).
Defined.

End turns.
